(** * MyWebClips: the static site builder [scripts/build.js]

    A shallow embedding of the build script and the properties its
    specification states about it.  JavaScript strings are sequences of
    UTF-16 code units, numbers that count pages are integers, the object
    used for grouping is a finite map, and the file-system calls of [run]
    thread an explicit state. *)

From Stdlib Require Import ZArith NArith QArith Qround String Ascii Lia.
From Stdlib Require DecimalPos.
From stdpp Require Import base option list gmap sorting.

Set Default Proof Using "Type".
Set Warnings "-register-all".

(** ** Strings *)

(** A JavaScript string: its UTF-16 code units. *)
Abbreviation jsstring := (list N).

Module Lit.

(** Source literals are written here as they are in [build.js]; the file
    is UTF-8, so a literal is decoded to the code units the engine holds
    ([need] continuation bytes still to come, [acc] the bits read so far).
    Every character of the script is in the basic plane. *)
Fixpoint utf8_units (need : nat) (acc : N) (bs : list N) : jsstring :=
  match bs with
  | [] => []
  | b :: bs' =>
    match need with
    | O => if (b <? 128)%N then b :: utf8_units 0 0 bs'
           else if (b <? 224)%N then utf8_units 1 (b - 192) bs'
           else utf8_units 2 (b - 224) bs'
    | S O => (acc * 64 + (b - 128))%N :: utf8_units 0 0 bs'
    | S k => utf8_units k (acc * 64 + (b - 128)) bs'
    end
  end.

Definition lit (s : string) : jsstring :=
  utf8_units 0 0 (map N_of_ascii (list_ascii_of_string s)).

(** The double quote, which a literal of this file cannot hold. *)
Definition dq : jsstring := [34%N].

End Lit.
Export Lit.
Arguments lit : simpl never.

(** ** The fragment of the regular-expression engine the script uses

    Every pattern of [build.js] is a sequence of single-unit atoms (a literal
    unit or [\d]), optionally anchored at either end, optionally global, and
    with at most one capture group, which is then a prefix of the pattern. *)
Module Regex.

Inductive atom := Chr (c : N) | Digit.

Record regex := {
  anchored_start : bool;      (* ^ *)
  group : list atom;          (* ( ... ), empty when the pattern has none *)
  body : list atom;           (* what follows the group *)
  anchored_end : bool;        (* $ *)
  global : bool               (* the g flag *)
}.

Definition atom_ok (a : atom) (c : N) : bool :=
  match a with
  | Chr c' => (c =? c')%N
  | Digit => (48 <=? c)%N && (c <=? 57)%N
  end.

(** The atoms matched against the start of [s]: the matched text and what
    follows it. *)
Fixpoint match_here (r : list atom) (s : jsstring) : option (jsstring * jsstring) :=
  match r with
  | [] => Some ([], s)
  | a :: r' =>
    match s with
    | c :: s' =>
      if atom_ok a c
      then '(m, rest) ← match_here r' s'; Some (c :: m, rest)
      else None
    | [] => None
    end
  end.

Definition is_nil {A} (l : list A) : bool :=
  match l with [] => true | _ => false end.

(** One match attempt at the current position. *)
Definition try_at (re : regex) (at_start : bool) (s : jsstring)
  : option (jsstring * jsstring) :=
  if anchored_start re && negb at_start then None
  else match match_here (group re ++ body re) s with
       | Some (m, rest) =>
         if anchored_end re && negb (is_nil rest) then None else Some (m, rest)
       | None => None
       end.

(** The leftmost match: the text before it, the match, the text after. *)
Fixpoint search (re : regex) (before_rev s : jsstring)
  : option (jsstring * jsstring * jsstring) :=
  match try_at re (is_nil before_rev) s with
  | Some (m, rest) => Some (rev before_rev, m, rest)
  | None =>
    match s with
    | [] => None
    | c :: s' => search re (c :: before_rev) s'
    end
  end.

(** [GetSubstitution] for a pattern without captures: [$$], [$&], [$`]
    and [$'] are expanded; a [$] before anything else (a digit or [<]
    included, there being no capture to name) stands for itself. *)
Fixpoint getSubstitution (matched before after template : jsstring) : jsstring :=
  match template with
  | [] => []
  | c :: t =>
    if (c =? 36)%N then
      match t with
      | d :: t' =>
        if (d =? 36)%N then 36%N :: getSubstitution matched before after t'
        else if (d =? 38)%N then matched ++ getSubstitution matched before after t'
        else if (d =? 96)%N then before ++ getSubstitution matched before after t'
        else if (d =? 39)%N then after ++ getSubstitution matched before after t'
        else 36%N :: getSubstitution matched before after t
      | [] => [36%N]
      end
    else c :: getSubstitution matched before after t
  end.

(** Replacement of every match, left to right, matches not overlapping:
    [skip] units of the current match are still to be passed over. *)
Fixpoint replace_all (re : regex) (rep before_rev : jsstring) (skip : nat)
    (s : jsstring) : jsstring :=
  match s with
  | [] =>
    match try_at re (is_nil before_rev) [] with
    | Some _ => getSubstitution [] (rev before_rev) [] rep
    | None => []
    end
  | c :: s' =>
    match skip with
    | S k => replace_all re rep (c :: before_rev) k s'
    | O =>
      match try_at re (is_nil before_rev) s with
      | Some ([], rest) =>
        getSubstitution [] (rev before_rev) rest rep
          ++ c :: replace_all re rep (c :: before_rev) 0 s'
      | Some (m, rest) =>
        getSubstitution m (rev before_rev) rest rep
          ++ replace_all re rep (c :: before_rev) (length m - 1) s'
      | None => c :: replace_all re rep (c :: before_rev) 0 s'
      end
    end
  end.

(** [String.prototype.replace] with a regular expression and a string. *)
Definition String_replace_re (s : jsstring) (re : regex) (rep : jsstring) : jsstring :=
  if global re then replace_all re rep [] 0 s
  else match search re [] s with
       | Some (before, m, after) => before ++ getSubstitution m before after rep ++ after
       | None => s
       end.

(** [String.prototype.match] with a regular expression that is not global:
    [None] for [null], else the match and its first group. *)
Definition String_match (s : jsstring) (re : regex) : option (jsstring * jsstring) :=
  '(_, m, _) ← search re [] s; Some (m, take (length (group re)) m).

(** The first occurrence of the string [pat]: the text before and after. *)
Fixpoint indexOf_split (pat before_rev s : jsstring) : option (jsstring * jsstring) :=
  match match_here (map Chr pat) s with
  | Some (_, rest) => Some (rev before_rev, rest)
  | None =>
    match s with
    | [] => None
    | c :: s' => indexOf_split pat (c :: before_rev) s'
    end
  end.

(** [String.prototype.replace] with a string to search for: the first
    occurrence only, the replacement still read as a template. *)
Definition String_replace (s pat rep : jsstring) : jsstring :=
  match indexOf_split pat [] s with
  | Some (before, after) => before ++ getSubstitution pat before after rep ++ after
  | None => s
  end.

Definition endsWith (s suffix : jsstring) : bool :=
  (length suffix <=? length s)%nat
  && bool_decide (drop (length s - length suffix) s = suffix).

Definition chars (s : string) : list atom := map Chr (lit s).

End Regex.
Export Regex.

(** ** Helpers of [build.js] *)

Definition POSTS_PER_PAGE : Z := 10.

(** The global pattern of one double quote. *)
Definition re_quote : regex :=
  {| anchored_start := false; group := []; body := map Chr dq;
     anchored_end := false; global := true |}.

Definition escapeHtml (text : jsstring) : jsstring :=
  String_replace_re text re_quote (lit "&quot;").

Record Article := {
  title : jsstring;
  date : jsstring;
  path : jsstring;
  filename : jsstring
}.

(** [\d{4}-\d{2}-\d{2}] *)
Definition date_atoms : list atom :=
  replicate 4 Digit ++ chars "-" ++ replicate 2 Digit ++ chars "-" ++ replicate 2 Digit.

(** [/^(\d{4}-\d{2}-\d{2})-/] *)
Definition re_date_group : regex :=
  {| anchored_start := true; group := date_atoms; body := chars "-";
     anchored_end := false; global := false |}.

(** [/^\d{4}-\d{2}-\d{2}-/] *)
Definition re_date_prefix : regex :=
  {| anchored_start := true; group := []; body := date_atoms ++ chars "-";
     anchored_end := false; global := false |}.

(** [/\.html$/] *)
Definition re_html_suffix : regex :=
  {| anchored_start := false; group := []; body := chars ".html";
     anchored_end := true; global := false |}.

(** [/%20/g], [/%E2%80%94/g], [/%EF%BC%9A/g] *)
Definition re_literal_g (s : string) : regex :=
  {| anchored_start := false; group := []; body := chars s;
     anchored_end := false; global := true |}.

Definition getArticleFromFilename (file : jsstring) : option Article :=
  if bool_decide (file = lit "index.html") || negb (endsWith file (lit ".html"))
  then None
  else
    match String_match file re_date_group with
    | None => None
    | Some (_, dateStr) =>
      let title := String_replace_re file re_date_prefix (lit "") in
      let title := String_replace_re title re_html_suffix (lit "") in
      let title := String_replace_re title (re_literal_g "%20") (lit " ") in
      let title := String_replace_re title (re_literal_g "%E2%80%94") (lit "—") in
      let title := String_replace_re title (re_literal_g "%EF%BC%9A") (lit "：") in
      Some {| title := title;
              date := dateStr;
              path := lit "pages/" ++ file;
              filename := file |}
    end.

(** ** Numbers, arrays and objects *)

Module Js.

Fixpoint uint_units (u : Decimal.uint) : jsstring :=
  match u with
  | Decimal.Nil => []
  | Decimal.D0 u => 48%N :: uint_units u
  | Decimal.D1 u => 49%N :: uint_units u
  | Decimal.D2 u => 50%N :: uint_units u
  | Decimal.D3 u => 51%N :: uint_units u
  | Decimal.D4 u => 52%N :: uint_units u
  | Decimal.D5 u => 53%N :: uint_units u
  | Decimal.D6 u => 54%N :: uint_units u
  | Decimal.D7 u => 55%N :: uint_units u
  | Decimal.D8 u => 56%N :: uint_units u
  | Decimal.D9 u => 57%N :: uint_units u
  end.

(** The string a template literal or [replace] makes of an integer. *)
Definition Number_toString (z : Z) : jsstring :=
  match z with
  | Z0 => lit "0"
  | Zpos p => uint_units (Pos.to_uint p)
  | Zneg p => lit "-" ++ uint_units (Pos.to_uint p)
  end.

(** [Math.ceil(a / b)] on array lengths, where the quotient of the two
    doubles and the exact quotient have the same ceiling. *)
Definition Math_ceil_div (a b : Z) : Z := Qceiling (inject_Z a / inject_Z b).

(** [Array.prototype.slice(start, end)] with [0 <= start <= end]. *)
Definition Array_slice {A} (l : list A) (start end_ : Z) : list A :=
  take (Z.to_nat end_ - Z.to_nat start) (drop (Z.to_nat start) l).

(** [Array.prototype.filter(Boolean)] on an array of objects and [null]. *)
Definition Array_filter_Boolean {A} (l : list (option A)) : list A := omap id l.

(** [Array.prototype.sort(comparator)]: the sort is stable, and with a
    consistent comparator every stable sort returns this list. *)
Fixpoint sort_insert {A} (cmp : A → A → Z) (x : A) (l : list A) : list A :=
  match l with
  | [] => [x]
  | y :: l' => if (cmp x y <=? 0)%Z then x :: l else y :: sort_insert cmp x l'
  end.

Definition Array_sort {A} (cmp : A → A → Z) (l : list A) : list A :=
  foldr (sort_insert cmp) [] l.

(** The order of strings by code units, which [sort()] without a
    comparator uses. *)
Fixpoint str_compare (a b : jsstring) : comparison :=
  match a, b with
  | [], [] => Eq
  | [], _ :: _ => Lt
  | _ :: _, [] => Gt
  | x :: a', y :: b' =>
    match (x ?= y)%N with
    | Eq => str_compare a' b'
    | c => c
    end
  end.

Definition sort_compare (a b : jsstring) : Z :=
  match str_compare a b with Lt => -1 | Eq => 0 | Gt => 1 end.

Definition Array_sort_default (l : list jsstring) : list jsstring :=
  Array_sort sort_compare l.

(** The property names every object inherits from [Object.prototype];
    each holds a function or an object, none of which has [push]. *)
Definition Object_prototype_keys : list jsstring :=
  map lit [ "constructor"; "__defineGetter__"; "__defineSetter__";
            "hasOwnProperty"; "__lookupGetter__"; "__lookupSetter__";
            "isPrototypeOf"; "propertyIsEnumerable"; "toString"; "valueOf";
            "__proto__"; "toLocaleString" ]%string.

End Js.
Export Js.

(** ** The two fragments *)

Definition attr (name : string) (value : jsstring) : jsstring :=
  lit name ++ lit "=" ++ dq ++ value ++ dq.

Definition nl : jsstring := [10%N].

(** One pass of the first [forEach]: [None] is the [TypeError] of calling
    [push] on an inherited property, which a date taken from a file name
    never names. *)
Definition group_step (groupedByDate : gmap jsstring (list Article)) (article : Article)
  : option (gmap jsstring (list Article)) :=
  if bool_decide (date article ∈ Object_prototype_keys) then None
  else
    let groupedByDate :=
      match groupedByDate !! date article with
      | None => <[date article := []]> groupedByDate
      | Some _ => groupedByDate
      end in
    Some (alter (λ l, l ++ [article]) (date article) groupedByDate).

Fixpoint group_articles (groupedByDate : gmap jsstring (list Article))
    (articles : list Article) : option (gmap jsstring (list Article)) :=
  match articles with
  | [] => Some groupedByDate
  | article :: rest =>
    groupedByDate ← group_step groupedByDate article;
    group_articles groupedByDate rest
  end.

Definition date_group_open (date : jsstring) : jsstring :=
  nl ++ lit "<div " ++ attr "class" (lit "date-group") ++ lit ">" ++ nl
  ++ lit "    <div " ++ attr "class" (lit "date-header") ++ lit ">" ++ date
  ++ lit "</div>" ++ nl
  ++ lit "    <ul " ++ attr "class" (lit "article-list") ++ lit ">" ++ nl.

Definition article_item (article : Article) : jsstring :=
  nl ++ lit "        <li " ++ attr "class" (lit "article-item") ++ lit ">" ++ nl
  ++ lit "            <a " ++ attr "href" (lit "/" ++ path article)
  ++ lit " " ++ attr "target" (lit "_blank")
  ++ lit " " ++ attr "class" (lit "article-link") ++ lit ">" ++ title article
  ++ lit "</a>" ++ nl
  ++ lit "            <button " ++ attr "class" (lit "copy-btn")
  ++ lit " " ++ attr "data-title" (escapeHtml (title article))
  ++ lit " " ++ attr "data-path" (path article) ++ lit ">复制链接</button>" ++ nl
  ++ lit "        </li>" ++ nl.

Definition date_group_close : jsstring :=
  lit "    </ul>" ++ nl ++ lit "</div>" ++ nl.

(** The keys are own properties only; the order [Object.keys] lists them in
    is lost in the [sort()] that follows. *)
Definition Object_keys (o : gmap jsstring (list Article)) : list jsstring :=
  (map_to_list o).*1.

Definition generateArticlesHtml (articles : list Article) : option jsstring :=
  groupedByDate ← group_articles ∅ articles;
  Some (foldl (λ html date,
          let html := html ++ date_group_open date in
          let html :=
            foldl (λ html article, html ++ article_item article) html
                  (default [] (groupedByDate !! date)) in
          html ++ date_group_close)
        [] (reverse (Array_sort_default (Object_keys groupedByDate)))).

Definition generatePaginationHtml (currentPage totalPages : Z) : jsstring :=
  let html := lit "<div " ++ attr "class" (lit "pagination") ++ lit ">" in
  let html :=
    if (1 <? currentPage)%Z then
      let prevPagePath :=
        if (currentPage =? 2)%Z then lit "/"
        else lit "/archives/" ++ Number_toString (currentPage - 1) ++ lit "/" in
      html ++ lit "<a " ++ attr "href" prevPagePath
      ++ lit " " ++ attr "class" (lit "pagination-link") ++ lit ">« 上一页</a>"
    else html in
  let html :=
    html ++ lit "<span " ++ attr "class" (lit "pagination-current") ++ lit ">第 "
    ++ Number_toString currentPage ++ lit " / " ++ Number_toString totalPages
    ++ lit " 页</span>" in
  let html :=
    if (currentPage <? totalPages)%Z then
      let nextPagePath :=
        lit "/archives/" ++ Number_toString (currentPage + 1) ++ lit "/" in
      html ++ lit "<a " ++ attr "href" nextPagePath
      ++ lit " " ++ attr "class" (lit "pagination-link") ++ lit ">下一页 »</a>"
    else html in
  html ++ lit "</div>".

(** ** Files and the console *)

Module Fs.

Inductive node :=
| File (data : jsstring)
| Dir (entries : list (jsstring * node)).

Fixpoint lookup_entry (name : jsstring) (es : list (jsstring * node)) : option node :=
  match es with
  | [] => None
  | (k, v) :: es' => if bool_decide (k = name) then Some v else lookup_entry name es'
  end.

Fixpoint set_entry (name : jsstring) (n : node) (es : list (jsstring * node))
  : list (jsstring * node) :=
  match es with
  | [] => [(name, n)]
  | (k, v) :: es' =>
    if bool_decide (k = name) then (k, n) :: es' else (k, v) :: set_entry name n es'
  end.

(** [mkdirSync(dir, { recursive: true })] below a node: [None] when a file
    is in the way. *)
Fixpoint mkdirp (dir : list jsstring) (n : node) : option node :=
  match n with
  | File _ => None
  | Dir es =>
    match dir with
    | [] => Some n
    | c :: dir' =>
      child ← mkdirp dir' (default (Dir []) (lookup_entry c es));
      Some (Dir (set_entry c child es))
    end
  end.

(** [writeFileSync(dir/name, data)]: [None] when [dir] is missing or
    [name] is a directory. *)
Fixpoint writeFile (dir : list jsstring) (name data : jsstring) (n : node)
  : option node :=
  match n with
  | File _ => None
  | Dir es =>
    match dir with
    | [] =>
      match lookup_entry name es with
      | Some (Dir _) => None
      | _ => Some (Dir (set_entry name (File data) es))
      end
    | c :: dir' =>
      child ← lookup_entry c es;
      child ← writeFile dir' name data child;
      Some (Dir (set_entry c child es))
    end
  end.

(** The files of a tree, by their paths. *)
Fixpoint file_paths (n : node) : list (list jsstring) :=
  match n with
  | File _ => [[]]
  | Dir es =>
    (fix go (es : list (jsstring * node)) : list (list jsstring) :=
       match es with
       | [] => []
       | (k, v) :: es' => map (cons k) (file_paths v) ++ go es'
       end) es
  end.

End Fs.
Export Fs.

(** What the script reads and does not write: the [pages] directory, the
    template, the clock and the collation behind [localeCompare]. *)
Record Env := {
  pagesDir : option node;
  templatePath : option node;
  currentYear : Z;
  localeCompare : jsstring → jsstring → Z
}.

(** The lines of [console.log], by what they report. *)
Inductive message :=
| CleanedAndCreated
| CopiedPages
| NoArticlesFound
| BuiltPage (i : Z)
| TotalPagesBuilt (totalPages : Z).

(** What the script writes: the tree at [siteDir] ([None] when there is
    none) and the console. *)
Record Sys := {
  siteDir : option node;
  console : list message
}.

Inductive outcome (A : Type) :=
| Returned (a : A)
| Thrown.
Arguments Returned {A} a.
Arguments Thrown {A}.

Definition M (A : Type) : Type := Sys → outcome A * Sys.

Global Instance M_ret : MRet M := λ A a s, (Returned a, s).
Global Instance M_bind : MBind M := λ A B f m s,
  match m s with
  | (Returned a, s') => f a s'
  | (Thrown, s') => (Thrown, s')
  end.

Definition throw {A} : M A := λ s, (Thrown, s).

Definition or_throw {A} (o : option A) : M A :=
  match o with Some a => mret a | None => throw end.

Definition console_log (m : message) : M unit := λ s,
  (Returned (), {| siteDir := siteDir s; console := console s ++ [m] |}).

Definition get_site : M (option node) := λ s, (Returned (siteDir s), s).

Definition put_site (t : option node) : M unit := λ s,
  (Returned (), {| siteDir := t; console := console s |}).

(** [fs.rmSync(siteDir, { recursive: true, force: true })] *)
Definition rmSync_site : M unit := put_site None.

(** [fs.mkdirSync(dir, { recursive: true })], [dir] given below [siteDir]. *)
Definition mkdirSync (dir : list jsstring) : M unit :=
  t ← get_site;
  t ← or_throw (mkdirp dir (default (Dir []) t));
  put_site (Some t).

(** [fs.cpSync(pagesDir, path.join(siteDir, 'pages'), { recursive: true })] *)
Definition cpSync_pages (e : Env) : M unit :=
  src ← or_throw (pagesDir e);
  t ← get_site;
  match t with
  | Some (Dir es) => put_site (Some (Dir (set_entry (lit "pages") src es)))
  | _ => throw
  end.

(** [fs.readdirSync(pagesDir)] *)
Definition readdirSync_pages (e : Env) : M (list jsstring) :=
  match pagesDir e with
  | Some (Dir es) => mret es.*1
  | _ => throw
  end.

(** [fs.readFileSync(templatePath, 'utf-8')] *)
Definition readFileSync_template (e : Env) : M jsstring :=
  match templatePath e with
  | Some (File data) => mret data
  | _ => throw
  end.

(** [fs.writeFileSync(path.join(dir, name), data)] *)
Definition writeFileSync (dir : list jsstring) (name data : jsstring) : M unit :=
  t ← get_site;
  t ← or_throw (t ≫= writeFile dir name data);
  put_site (Some t).

Fixpoint for_each {A} (l : list A) (body : A → M unit) : M unit :=
  match l with
  | [] => mret ()
  | x :: l' => body x;; for_each l' body
  end.

(** ** The main logic *)

Definition allArticles_of (e : Env) (allFiles : list jsstring) : list Article :=
  Array_sort (λ a b, localeCompare e (filename b) (filename a))
    (Array_filter_Boolean (map getArticleFromFilename allFiles)).

Definition totalPages_of (allArticles : list Article) : Z :=
  Math_ceil_div (Z.of_nat (length allArticles)) POSTS_PER_PAGE.

Definition pageArticles_of (allArticles : list Article) (i : Z) : list Article :=
  let startIndex := ((i - 1) * POSTS_PER_PAGE)%Z in
  let endIndex := (startIndex + POSTS_PER_PAGE)%Z in
  Array_slice allArticles startIndex endIndex.

Definition finalHtml_of (template articlesHtml paginationHtml : jsstring)
    (currentYear : Z) : jsstring :=
  let finalHtml :=
    String_replace template (lit "<!-- ARCHIVES_PLACEHOLDER -->") articlesHtml in
  let finalHtml :=
    String_replace finalHtml (lit "<!-- PAGINATION_PLACEHOLDER -->") paginationHtml in
  String_replace finalHtml (lit "<!-- YEAR_PLACEHOLDER -->") (Number_toString currentYear).

Definition pageOutputDir_of (i : Z) : list jsstring :=
  if (i =? 1)%Z then [] else [lit "archives"; Number_toString i].

Definition build_page (e : Env) (allArticles : list Article) (totalPages : Z)
    (template : jsstring) (i : Z) : M unit :=
  let pageArticles := pageArticles_of allArticles i in
  articlesHtml ← or_throw (generateArticlesHtml pageArticles);
  let paginationHtml := generatePaginationHtml i totalPages in
  let finalHtml := finalHtml_of template articlesHtml paginationHtml (currentYear e) in
  let pageOutputDir := pageOutputDir_of i in
  mkdirSync pageOutputDir;;
  writeFileSync pageOutputDir (lit "index.html") finalHtml;;
  console_log (BuiltPage i).

Definition run (e : Env) : M unit :=
  rmSync_site;;
  mkdirSync [];;
  console_log CleanedAndCreated;;
  cpSync_pages e;;
  console_log CopiedPages;;
  allFiles ← readdirSync_pages e;
  let allArticles := allArticles_of e allFiles in
  if bool_decide (length allArticles = 0) then
    console_log NoArticlesFound
  else
    let totalPages := totalPages_of allArticles in
    template ← readFileSync_template e;
    for_each (seqZ 1 totalPages) (build_page e allArticles totalPages template);;
    console_log (TotalPagesBuilt totalPages).

(** A fresh process: nothing printed yet. *)
Definition start (site : option node) : Sys := {| siteDir := site; console := [] |}.

(** ** The words of the specification *)

Module Spec.

Definition is_digit (c : N) : bool := (48 <=? c)%N && (c <=? 57)%N.

(** [YYYY-MM-DD]: ten units, digits but for the two hyphens. *)
Definition date_shaped (d : jsstring) : bool :=
  match d with
  | [y1; y2; y3; y4; h1; m1; m2; h2; d1; d2] =>
    forallb is_digit [y1; y2; y3; y4; m1; m2; d1; d2]
    && (h1 =? 45)%N && (h2 =? 45)%N
  | _ => false
  end.

(** [pat] occurs in [s]. *)
Definition occurs (pat s : jsstring) : Prop := ∃ a b, s = a ++ pat ++ b.

Fixpoint occursb (pat s : jsstring) : bool :=
  bool_decide (pat `prefix_of` s)
  || match s with
     | [] => false
     | _ :: s' => occursb pat s'
     end.

(** [t] is [s] with every occurrence of [pat], taken from the left and
    not overlapping, replaced by [rep]. *)
Inductive ReplacedAll (pat rep : jsstring) : jsstring → jsstring → Prop :=
| ReplacedAll_nil : ReplacedAll pat rep [] []
| ReplacedAll_hit s t :
    ReplacedAll pat rep s t → ReplacedAll pat rep (pat ++ s) (rep ++ t)
| ReplacedAll_pass c s t :
    ¬ pat `prefix_of` c :: s →
    ReplacedAll pat rep s t → ReplacedAll pat rep (c :: s) (c :: t).

(** The title of an article, from what stands between the date prefix and
    [.html]: the three replacements, in order. *)
Definition Decoded (rest title : jsstring) : Prop :=
  ∃ t1 t2,
    ReplacedAll (lit "%20") (lit " ") rest t1
    ∧ ReplacedAll (lit "%E2%80%94") (lit "—") t1 t2
    ∧ ReplacedAll (lit "%EF%BC%9A") (lit "：") t2 title.

(** Line feed, carriage return, line separator, paragraph separator: the
    units a [.] of a regular expression does not match. *)
Definition line_terminator (c : N) : bool :=
  (c =? 10)%N || (c =? 13)%N || (c =? 8232)%N || (c =? 8233)%N.

(** [^\d{4}-\d{2}-\d{2}-.*\.html$] *)
Definition matches_article_pattern (file : jsstring) : Prop :=
  ∃ d mid,
    date_shaped d = true
    ∧ Forall (λ c, line_terminator c = false) mid
    ∧ file = d ++ lit "-" ++ mid ++ lit ".html".

(** [t] is [s] with its first occurrence of [pat], when it has one,
    replaced by the text [rep] as it is. *)
Definition ReplacedFirst (pat rep s t : jsstring) : Prop :=
  (¬ occurs pat s ∧ t = s)
  ∨ ∃ b a,
      s = b ++ pat ++ a
      ∧ (∀ b' a', s = b' ++ pat ++ a' → length b ≤ length b')
      ∧ t = b ++ rep ++ a.

(** Each double quote replaced by [&quot;], nothing else touched. *)
Definition quote_escaped (text : jsstring) : jsstring :=
  text ≫= λ c, if (c =? 34)%N then lit "&quot;" else [c].

(** The entry of an article as the specification has it: the title as it
    is in the link text, quote-escaped in [data-title]. *)
Definition expected_entry (a : Article) : jsstring :=
  nl ++ lit "        <li " ++ attr "class" (lit "article-item") ++ lit ">" ++ nl
  ++ lit "            <a " ++ attr "href" (lit "/" ++ path a)
  ++ lit " " ++ attr "target" (lit "_blank")
  ++ lit " " ++ attr "class" (lit "article-link") ++ lit ">" ++ title a
  ++ lit "</a>" ++ nl
  ++ lit "            <button " ++ attr "class" (lit "copy-btn")
  ++ lit " " ++ attr "data-title" (quote_escaped (title a))
  ++ lit " " ++ attr "data-path" (path a) ++ lit ">复制链接</button>" ++ nl
  ++ lit "        </li>" ++ nl.

(** The articles of one date, in the order of the list. *)
Definition of_date (d : jsstring) (articles : list Article) : list Article :=
  filter (λ a, date a = d) articles.

(** One date group of the fragment: the header with the date, the entries
    of its articles, the closing tags. *)
Definition date_group (d : jsstring) (members : list Article) : jsstring :=
  date_group_open d ++ concat (map article_item members) ++ date_group_close.

(** A comparison of the kind [localeCompare] makes: letters are ranked
    whatever their case, and case decides, lower first, only between
    strings that are otherwise equal.  The key of a string is its units
    with capitals folded, then a separator, then the case of each unit. *)
Definition is_upper (c : N) : bool := (65 <=? c)%N && (c <=? 90)%N.

Definition collation_key (s : jsstring) : jsstring :=
  map (λ c, if is_upper c then (c + 32)%N else c) s
  ++ 0%N :: map (λ c, if is_upper c then 1%N else 0%N) s.

Definition caseless_compare (a b : jsstring) : Z :=
  sort_compare (collation_key a) (collation_key b).

End Spec.
Export Spec.

(** ** Comparators, patterns and tactics used in the statements *)

(** A comparator is consistent when [cmp a b <= 0] is a total preorder;
    [sort] is specified for such comparators only. *)
Record consistent {A} (cmp : A → A → Z) : Prop := {
  cmp_total : ∀ a b, (cmp a b ≤ 0)%Z ∨ (cmp b a ≤ 0)%Z;
  cmp_trans : ∀ a b c, (cmp a b ≤ 0)%Z → (cmp b c ≤ 0)%Z → (cmp a c ≤ 0)%Z
}.

(** Patterns that are one literal, as [/%20/g] or [/\.html$/]. *)
Definition literal_re (re : regex) (pat : jsstring) : Prop :=
  anchored_start re = false ∧ group re = [] ∧ body re = map Chr pat ∧ pat ≠ [].

(** A template with the three placeholders, each once. *)
Definition template_3 : jsstring :=
  lit "<main><!-- ARCHIVES_PLACEHOLDER --></main><nav><!-- PAGINATION_PLACEHOLDER --></nav><footer><!-- YEAR_PLACEHOLDER --></footer>".

(** Closed decidable facts, by evaluation. *)
Ltac by_compute := apply (bool_decide_unpack _); vm_compute; exact I.

Ltac split_andb :=
  repeat match goal with
         | H : (_ && _) = true |- _ => apply andb_prop in H as [? ?]
         end.

(** A unit that is neither a digit nor a hyphen is in a text made of
    literals and numbers only where a literal has it; [units] is the lemma
    on the units of a number. *)
Ltac absent_unit H units :=
  repeat (apply elem_of_app in H as [H | H]);
  first [ apply units in H as [H | H]; discriminate H
        | exfalso; revert H; by_compute ].

(** ** The site a run leaves *)

(** The text of page [i]: [None] when the fragment of its articles cannot
    be made. *)
Definition page_of (e : Env) (allArticles : list Article) (template : jsstring)
    (i : Z) : option jsstring :=
  articlesHtml ← generateArticlesHtml (pageArticles_of allArticles i);
  Some (finalHtml_of template articlesHtml
          (generatePaginationHtml i (totalPages_of allArticles)) (currentYear e)).

(** The directories of the pages [i], [i + 1], ... below [archives], each
    with its [index.html]. *)
Fixpoint archive_entries (i : Z) (pages : list jsstring) : list (jsstring * node) :=
  match pages with
  | [] => []
  | page :: pages' =>
    (Number_toString i, Dir [(lit "index.html", File page)])
    :: archive_entries (i + 1) pages'
  end.

(** The output tree with the copy of [pages] and the pages built so far:
    the first as [index.html], the others below [archives], which is there
    only when there is a second page. *)
Definition site_tree (entries : list (jsstring * node)) (pages : list jsstring)
  : node :=
  Dir ((lit "pages", Dir entries)
       :: match pages with
          | [] => []
          | first :: rest =>
            (lit "index.html", File first)
            :: match rest with
               | [] => []
               | _ :: _ => [(lit "archives", Dir (archive_entries 2 rest))]
               end
          end).

(** The node at a path below a node. *)
Fixpoint lookup_path (path : list jsstring) (n : node) : option node :=
  match path with
  | [] => Some n
  | c :: path' =>
    match n with
    | File _ => None
    | Dir es => lookup_entry c es ≫= lookup_path path'
    end
  end.

(** The address at which a directory of the site is served: the address
    of its [index.html]. *)
Definition url_of_dir (dir : list jsstring) : jsstring :=
  lit "/" ++ concat (map (λ c, c ++ lit "/") dir).

(** ** A sample run *)

(** Eleven articles, one a day, and the environment of a run over them. *)
Definition sample_names : list jsstring :=
  map (λ d, lit "2024-01-" ++ lit d ++ lit "-n.html")
      ["01"; "02"; "03"; "04"; "05"; "06"; "07"; "08"; "09"; "10"; "11"]%string.

Definition sample_entries : list (jsstring * node) :=
  map (λ f, (f, File (lit "<p>n</p>"))) sample_names.

Definition sample_env : Env :=
  {| pagesDir := Some (Dir sample_entries);
     templatePath := Some (File template_3);
     currentYear := 2024;
     localeCompare := caseless_compare |}.

Definition sample_article (day : string) : Article :=
  {| title := lit "n";
     date := lit "2024-01-" ++ lit day;
     path := lit "pages/2024-01-" ++ lit day ++ lit "-n.html";
     filename := lit "2024-01-" ++ lit day ++ lit "-n.html" |}.

(** * Properties *)

(** ** Literals and numbers *)

Example lit_em_dash : lit "—" = [8212%N].
Proof. reflexivity. Qed.

Example lit_fullwidth_colon : lit "：" = [65306%N].
Proof. reflexivity. Qed.

Example lit_copy_label : lit "复制链接" = [22797; 21046; 38142; 25509]%N.
Proof. reflexivity. Qed.

Example lit_guillemet : lit "«" = [171%N].
Proof. reflexivity. Qed.

Example Number_toString_2024 : Number_toString 2024 = lit "2024".
Proof. reflexivity. Qed.

Example Number_toString_10 : Number_toString 10 = lit "10".
Proof. reflexivity. Qed.

(** ** The regular-expression engine *)

Section regex_facts.

Implicit Types (r : list atom) (s m rest rep : jsstring) (re : regex).

Lemma match_here_spec r s m rest :
  match_here r s = Some (m, rest)
  ↔ s = m ++ rest ∧ Forall2 (λ a c, atom_ok a c = true) r m.
Proof.
  revert s m rest. induction r as [|a r IH]; intros s m rest; simpl.
  - split.
    + intros [= <- <-]. split; [done | constructor].
    + intros [-> H]. by inversion H.
  - destruct s as [|c s].
    + split; [done |]. intros [Hs H]. inversion H; subst. discriminate.
    + destruct (atom_ok a c) eqn:Hc.
      * destruct (match_here r s) as [[m' rest']|] eqn:Hm; simpl.
        -- apply IH in Hm as [-> HF]. split.
           ++ intros [= <- <-]. split; [done | by constructor].
           ++ intros [Hs H]. inversion H; subst. simplify_eq/=.
              assert (match_here r (m' ++ rest') = Some (l', rest)) as Hm'
                by (apply IH; split; [congruence | done]).
              assert (match_here r (m' ++ rest') = Some (m', rest')) as Hm''
                by (apply IH; done).
              congruence.
        -- split; [done |]. intros [Hs H]. inversion H; subst. simplify_eq/=.
           assert (match_here r (l' ++ rest) = Some (l', rest)) as Hm'
             by (apply IH; done).
           congruence.
      * split; [done |]. intros [Hs H]. inversion H; subst.
        simplify_eq/=. congruence.
Qed.

Lemma match_here_app r m rest :
  Forall2 (λ a c, atom_ok a c = true) r m → match_here r (m ++ rest) = Some (m, rest).
Proof. intros. by apply match_here_spec. Qed.

Lemma Forall2_Chr (pat : jsstring) m :
  Forall2 (λ a c, atom_ok a c = true) (map Chr pat) m ↔ m = pat.
Proof.
  revert m. induction pat as [|p pat IH]; intros m; simpl.
  - split; [by inversion 1 | intros ->; constructor].
  - split.
    + inversion 1 as [|? c ? m' Hc Hm]; subst. simpl in Hc.
      apply N.eqb_eq in Hc as ->. f_equal. by apply IH.
    + intros ->. constructor; [simpl; apply N.eqb_refl | by apply IH].
Qed.

(** A literal pattern matches where the literal is a prefix. *)
Lemma match_here_literal (pat : jsstring) s m rest :
  match_here (map Chr pat) s = Some (m, rest) ↔ m = pat ∧ s = pat ++ rest.
Proof.
  rewrite match_here_spec, Forall2_Chr. split; intros [? ?]; subst; done.
Qed.

Lemma match_here_literal_None (pat : jsstring) s :
  match_here (map Chr pat) s = None ↔ ¬ pat `prefix_of` s.
Proof.
  split.
  - intros Hn [rest ->].
    assert (match_here (map Chr pat) (pat ++ rest) = Some (pat, rest))
      by (by apply match_here_literal).
    congruence.
  - intros Hn. destruct (match_here (map Chr pat) s) as [[m rest]|] eqn:E; [|done].
    apply match_here_literal in E as [-> ->]. destruct Hn. by exists rest.
Qed.

Lemma endsWith_suffix s suffix :
  endsWith s suffix = true ↔ suffix `suffix_of` s.
Proof.
  unfold endsWith. rewrite andb_true_iff, Nat.leb_le, bool_decide_eq_true. split.
  - intros [Hl <-]. apply suffix_drop.
  - intros [k ->]. rewrite length_app. split; [lia |].
    replace (length k + length suffix - length suffix)%nat with (length k) by lia.
    by rewrite drop_app_length.
Qed.

(** A template without [$] is inserted as it is. *)
Lemma getSubstitution_plain m before after rep :
  36%N ∉ rep → getSubstitution m before after rep = rep.
Proof.
  induction rep as [|c rep IH]; [done |]. intros Hn. simpl.
  destruct (c =? 36)%N eqn:E.
  - apply N.eqb_eq in E as ->. destruct Hn. left.
  - rewrite IH; [done |]. intros ?. apply Hn. by right.
Qed.

(** An anchored pattern matches at the start or nowhere. *)
Lemma search_anchored_later re before_rev s :
  anchored_start re = true → before_rev ≠ [] → search re before_rev s = None.
Proof.
  intros Ha. revert before_rev. induction s as [|c s IH]; intros b Hb.
  - simpl. unfold try_at. rewrite Ha. by destruct b.
  - simpl. unfold try_at at 1. rewrite Ha. destruct b; [done |]. simpl.
    by apply IH.
Qed.

Lemma search_anchored re s :
  anchored_start re = true →
  search re [] s = ('(m, rest) ← try_at re true s; Some ([], m, rest)).
Proof.
  intros Ha. destruct s as [|c s]; simpl.
  - by destruct (try_at re true []) as [[? ?]|].
  - destruct (try_at re true (c :: s)) as [[? ?]|]; [done |]. simpl.
    by apply search_anchored_later.
Qed.

End regex_facts.

Section literal_patterns.

Context (re : regex) (pat : jsstring) (Hre : literal_re re pat).

Lemma try_at_literal at_start s :
  anchored_end re = false →
  try_at re at_start s = match_here (map Chr pat) s.
Proof using Hre.
  destruct Hre as (Ha & Hg & Hb & _). intros He. unfold try_at.
  rewrite Ha, Hg, Hb, He. simpl. by destruct (match_here _ _) as [[? ?]|].
Qed.

Lemma replace_all_skip rep before_rev skip s :
  skip ≤ length s →
  replace_all re rep before_rev skip s
  = replace_all re rep (rev (take skip s) ++ before_rev) 0 (drop skip s).
Proof.
  revert before_rev skip. induction s as [|c s IH]; intros b skip Hs.
  - simpl in Hs. by replace skip with 0 by lia.
  - destruct skip as [|k]; [done |].
    change (replace_all re rep b (S k) (c :: s))
      with (replace_all re rep (c :: b) k s).
    rewrite IH by (simpl in Hs; lia). simpl. by rewrite <- app_assoc.
Qed.

(** The engine's global replacement is the replacement of every
    occurrence, from the left. *)
Lemma replace_all_ReplacedAll rep before_rev s :
  anchored_end re = false → 36%N ∉ rep →
  ReplacedAll pat rep s (replace_all re rep before_rev 0 s).
Proof using Hre.
  intros He Hrep. remember (length s) as n eqn:Hn.
  revert s before_rev Hn. induction n as [n IH] using lt_wf_ind.
  intros s b ->. destruct s as [|c s].
  - simpl. rewrite try_at_literal by done.
    destruct (match_here (map Chr pat) []) as [[m rest]|] eqn:E; [| constructor].
    apply match_here_literal in E as [_ E]. destruct Hre as (_ & _ & _ & Hp).
    symmetry in E. apply app_eq_nil in E as [-> _]. done.
  - simpl. rewrite try_at_literal by done.
    destruct (match_here (map Chr pat) (c :: s)) as [[m rest]|] eqn:E.
    + apply match_here_literal in E as [-> E].
      destruct pat as [|p pat'] eqn:Hpat; [by destruct Hre as (_ & _ & _ & ?) |].
      rewrite getSubstitution_plain by done.
      simpl in E. injection E as -> ->.
      rewrite replace_all_skip by (rewrite length_app; simpl; lia).
      simpl. replace (length pat' - 0) with (length pat') by lia.
      rewrite drop_app_length.
      apply (ReplacedAll_hit (p :: pat')).
      eapply IH; [| reflexivity]. simpl. rewrite length_app. lia.
    + apply match_here_literal_None in E.
      constructor; [done |]. eapply IH; [| reflexivity]. simpl. lia.
Qed.

(** A literal anchored at the end is found at the end. *)
Lemma search_literal_at_end before_rev x :
  anchored_end re = true →
  search re before_rev (x ++ pat) = Some (rev before_rev ++ x, pat, []).
Proof using Hre.
  destruct Hre as (Ha & Hg & Hb & Hp). intros He.
  revert before_rev. induction x as [|c x IH]; intros b.
  - assert (try_at re (is_nil b) pat = Some (pat, [])) as Ht.
    { unfold try_at. rewrite Ha, Hg, Hb, He. simpl.
      assert (match_here (map Chr pat) pat = Some (pat, [])) as ->; [| done].
      apply match_here_literal. by rewrite app_nil_r. }
    simpl. rewrite app_nil_r. destruct pat; simpl; by rewrite Ht.
  - assert (try_at re (is_nil b) (c :: x ++ pat) = None) as Ht.
    { unfold try_at. rewrite Ha, Hg, Hb, He. simpl.
      destruct (match_here (map Chr pat) (c :: x ++ pat)) as [[m rest]|] eqn:E;
        [| done].
      apply match_here_literal in E as [-> E]. destruct rest; [| done].
      apply (f_equal length) in E. simpl in E.
      rewrite !length_app in E. simpl in E. lia. }
    simpl. rewrite Ht, IH. simpl. by rewrite <- app_assoc.
Qed.

End literal_patterns.

Section replaced_all.

Context (pat rep : jsstring).

Lemma ReplacedAll_functional s t t' :
  pat ≠ [] → ReplacedAll pat rep s t → ReplacedAll pat rep s t' → t = t'.
Proof.
  intros Hp H. revert t'. induction H as [| s t H IH | c s t Hn H IH]; intros t' H'.
  - inversion H' as [| s' t'' H'' Hs | ]; [done |].
    destruct pat; [done | discriminate].
  - inversion H' as [Hs | s' t'' H'' Hs | c s' t'' Hn' H'' Hs]; subst.
    + destruct pat; [done | discriminate].
    + apply app_inv_head in Hs as ->. f_equal. by apply IH.
    + destruct Hn'. rewrite Hs. by exists s.
  - inversion H' as [| s' t'' H'' Hs | ]; subst.
    + destruct Hn. rewrite <- Hs. by exists s'.
    + f_equal. by apply IH.
Qed.

(** Where the pattern does not occur, nothing changes. *)
Lemma ReplacedAll_absent s t :
  ¬ occurs pat s → ReplacedAll pat rep s t → t = s.
Proof.
  intros Hn H. induction H as [| s t H IH | c s t Hp H IH].
  - done.
  - destruct Hn. by exists [], s.
  - f_equal. apply IH. intros (a & b & ->). apply Hn. by exists (c :: a), b.
Qed.

End replaced_all.

Lemma escapeHtml_quote_escaped text : escapeHtml text = quote_escaped text.
Proof.
  assert (literal_re re_quote dq) as Hre by (by repeat split).
  assert (ReplacedAll dq (lit "&quot;") text (escapeHtml text)) as H.
  { unfold escapeHtml, String_replace_re. simpl.
    apply (replace_all_ReplacedAll _ _ Hre); [done |].
    by_compute. }
  induction H as [| s t H IH | c s t Hp H IH]; [done | |].
  - unfold quote_escaped in *. simpl. by rewrite IH.
  - unfold quote_escaped in *. simpl. rewrite IH.
    destruct (c =? 34)%N eqn:E; [| done].
    apply N.eqb_eq in E as ->. destruct Hp. by exists s.
Qed.

(** ** The filename parser *)

Section parser.

Implicit Types (file d rest : jsstring).

Lemma date_atoms_eq :
  date_atoms
  = [Digit; Digit; Digit; Digit; Chr 45; Digit; Digit; Chr 45; Digit; Digit].
Proof. reflexivity. Qed.

Lemma date_shaped_atoms d :
  date_shaped d = true ↔ Forall2 (λ a c, atom_ok a c = true) date_atoms d.
Proof.
  rewrite date_atoms_eq. split.
  - intros H.
    do 11 (destruct d as [|? d]; try discriminate H).
    unfold date_shaped, forallb, is_digit in H. split_andb.
    repeat constructor; simpl; auto using andb_true_intro.
  - intros H.
    repeat match goal with
           | H : Forall2 _ _ _ |- _ => inversion H; clear H; subst
           end.
    simpl in *. unfold date_shaped, forallb, is_digit. split_andb.
    repeat (apply andb_true_intro; split); done.
Qed.

Lemma date_shaped_length d : date_shaped d = true → length d = 10.
Proof.
  intros H. by do 11 (destruct d as [|? d]; try discriminate H).
Qed.

Lemma date_shaped_head d :
  date_shaped d = true → ∃ c d', d = c :: d' ∧ is_digit c = true.
Proof.
  intros H. do 11 (destruct d as [|? d]; try discriminate H).
  unfold date_shaped, forallb in H. split_andb. eauto.
Qed.

(** The date pattern at the start of a name: the date and what follows
    the hyphen. *)
Lemma match_date_prefix file m tail_ :
  match_here (date_atoms ++ chars "-") file = Some (m, tail_)
  ↔ ∃ d, date_shaped d = true ∧ m = d ++ lit "-" ∧ file = d ++ lit "-" ++ tail_.
Proof.
  rewrite match_here_spec. split.
  - intros [-> H]. apply Forall2_app_inv_l in H as (d & h & Hd & Hh & ->).
    apply Forall2_Chr in Hh as ->. apply date_shaped_atoms in Hd.
    exists d. by rewrite <- app_assoc.
  - intros (d & Hd & -> & ->). split; [by rewrite <- app_assoc |].
    apply Forall2_app; [by apply date_shaped_atoms | by apply Forall2_Chr].
Qed.

Lemma String_match_date file :
  String_match file re_date_group
  = '(m, _) ← match_here (date_atoms ++ chars "-") file; Some (m, take 10 m).
Proof.
  unfold String_match. rewrite search_anchored by done.
  unfold try_at, re_date_group. cbn [anchored_start group body anchored_end andb negb].
  change (length date_atoms) with 10.
  by destruct (match_here _ _) as [[? ?]|].
Qed.

Lemma strip_date_prefix file :
  String_replace_re file re_date_prefix (lit "")
  = match match_here (date_atoms ++ chars "-") file with
    | Some (_, tail_) => tail_
    | None => file
    end.
Proof.
  unfold String_replace_re. cbn [global re_date_prefix].
  rewrite search_anchored by done.
  unfold try_at. cbn [anchored_start group body anchored_end andb negb app].
  by destruct (match_here _ _) as [[? ?]|].
Qed.

Lemma strip_html_suffix rest :
  String_replace_re (rest ++ lit ".html") re_html_suffix (lit "") = rest.
Proof.
  unfold String_replace_re. cbn [global re_html_suffix].
  rewrite (search_literal_at_end re_html_suffix (lit ".html")) by (by repeat split).
  cbn [rev app getSubstitution]. change (lit "") with (@nil N).
  by rewrite app_nil_r.
Qed.

Lemma replace_literal_g (p : string) rep s :
  lit p ≠ [] → 36%N ∉ rep →
  ReplacedAll (lit p) rep s (String_replace_re s (re_literal_g p) rep).
Proof.
  intros Hp Hrep. unfold String_replace_re. cbn [global re_literal_g].
  by apply (replace_all_ReplacedAll (re_literal_g p) (lit p)).
Qed.

(** Names of the expected form are parsed, the title decoded from what
    stands between the date and [.html]. *)
Lemma parse_well_formed d rest :
  date_shaped d = true →
  ∃ t,
    Decoded rest t
    ∧ getArticleFromFilename (d ++ lit "-" ++ rest ++ lit ".html")
      = Some {| title := t; date := d;
                path := lit "pages/" ++ d ++ lit "-" ++ rest ++ lit ".html";
                filename := d ++ lit "-" ++ rest ++ lit ".html" |}.
Proof.
  intros Hd. set (file := d ++ lit "-" ++ rest ++ lit ".html").
  unfold getArticleFromFilename.
  assert (bool_decide (file = lit "index.html") = false) as ->.
  { apply bool_decide_eq_false. intros E.
    destruct (date_shaped_head d Hd) as (c & d' & -> & Hc).
    unfold file in E. vm_compute in E. injection E as -> _. done. }
  assert (endsWith file (lit ".html") = true) as ->.
  { apply endsWith_suffix. exists (d ++ lit "-" ++ rest).
    unfold file. by rewrite <- !app_assoc. }
  cbn [orb negb]. rewrite String_match_date, strip_date_prefix.
  assert (match_here (date_atoms ++ chars "-") file
          = Some (d ++ lit "-", rest ++ lit ".html")) as ->.
  { apply match_date_prefix. eauto. }
  cbn [mbind option_bind]. cbv zeta.
  rewrite take_app_length' by (by rewrite date_shaped_length).
  rewrite strip_html_suffix. eexists. split; [| reflexivity].
  eexists _, _. split_and!; apply replace_literal_g; by_compute.
Qed.

(** The suffix [.html] cannot reach into the date prefix. *)
Lemma html_suffix_of_tail d tail_ :
  date_shaped d = true →
  lit ".html" `suffix_of` d ++ lit "-" ++ tail_ →
  ∃ rest, tail_ = rest ++ lit ".html".
Proof.
  intros Hd [k Hk].
  destruct (decide (5 ≤ length tail_)) as [Hl | Hl].
  - exists (take (length tail_ - 5) tail_).
    rewrite <- (take_drop (length tail_ - 5) tail_) at 1. f_equal.
    apply (f_equal (drop (length k))) in Hk.
    rewrite drop_app_length in Hk. rewrite <- Hk.
    apply (f_equal length) in Hk as Hlen.
    assert (length k = 11 + length tail_ - 5) as ->.
    { apply (f_equal length) in Hk. revert Hlen.
      rewrite !length_drop, !length_app, (date_shaped_length d Hd).
      change (length (lit "-")) with 1. change (length (lit ".html")) with 5.
      lia. }
    rewrite app_assoc, drop_app_ge
      by (rewrite length_app, (date_shaped_length d Hd); simpl; lia).
    f_equal. rewrite length_app, (date_shaped_length d Hd). simpl. lia.
  - exfalso.
    do 11 (destruct d as [|? d]; try discriminate Hd).
    apply (f_equal reverse) in Hk. rewrite !reverse_app in Hk.
    do 5 (destruct tail_ as [|? tail_]; [vm_compute in Hk; discriminate Hk |]).
    simpl in Hl. lia.
Qed.

(** Only names of the expected form are parsed. *)
Lemma parse_Some_inv file a :
  getArticleFromFilename file = Some a →
  ∃ d rest,
    date_shaped d = true ∧ file = d ++ lit "-" ++ rest ++ lit ".html".
Proof.
  unfold getArticleFromFilename.
  destruct (bool_decide (file = lit "index.html")); [done |].
  destruct (endsWith file (lit ".html")) eqn:He; [| done]. cbn [orb negb].
  rewrite String_match_date.
  destruct (match_here _ _) as [[m tail_]|] eqn:Hm; [| done]. intros _.
  apply match_date_prefix in Hm as (d & Hd & -> & ->).
  apply endsWith_suffix in He.
  destruct (html_suffix_of_tail d tail_ Hd He) as [rest ->]. eauto.
Qed.

End parser.

Lemma Decoded_absent rest t :
  ¬ occurs (lit "%20") rest →
  ¬ occurs (lit "%E2%80%94") rest →
  ¬ occurs (lit "%EF%BC%9A") rest →
  Decoded rest t → t = rest.
Proof.
  intros H1 H2 H3 (t1 & t2 & R1 & R2 & R3).
  apply ReplacedAll_absent in R1 as ->; [| done].
  apply ReplacedAll_absent in R2 as ->; [| done].
  by apply ReplacedAll_absent in R3.
Qed.

(** C1.  A name [YYYY-MM-DD-<rest>.html] is parsed to an article whose date
    is the ten-unit prefix and whose title is [<rest>] with [%20], then
    [%E2%80%94], then [%EF%BC%9A] replaced throughout by a space, an em dash
    and a fullwidth colon; a [<rest>] in which none of the three occurs is
    the title unchanged, whatever other percent sequences it holds.  The two
    names the specification gives are parsed as it says. *)
Theorem parse_dated_filename :
  (∀ d rest : jsstring,
     date_shaped d = true →
     ∃ t,
       getArticleFromFilename (d ++ lit "-" ++ rest ++ lit ".html")
       = Some {| title := t; date := d;
                 path := lit "pages/" ++ d ++ lit "-" ++ rest ++ lit ".html";
                 filename := d ++ lit "-" ++ rest ++ lit ".html" |}
       ∧ Decoded rest t
       ∧ (¬ occurs (lit "%20") rest → ¬ occurs (lit "%E2%80%94") rest →
          ¬ occurs (lit "%EF%BC%9A") rest → t = rest))
  ∧ getArticleFromFilename (lit "2024-03-05-Hello%20World.html")
    = Some {| title := lit "Hello World"; date := lit "2024-03-05";
              path := lit "pages/2024-03-05-Hello%20World.html";
              filename := lit "2024-03-05-Hello%20World.html" |}
  ∧ title <$> getArticleFromFilename (lit "2024-03-05-Caf%E2%80%94Talk.html")
    = Some (lit "Caf—Talk")
  ∧ title <$> getArticleFromFilename (lit "2024-03-05-a%2Fb%41.html")
    = Some (lit "a%2Fb%41").
Proof.
  split_and!; [| by vm_compute ..].
  intros d rest Hd. destruct (parse_well_formed d rest Hd) as (t & HD & Hp).
  exists t. split_and!; [done | done |]. intros. by apply Decoded_absent.
Qed.

Lemma parse_dated_filename_witness :
  date_shaped (lit "2024-03-05") = true
  ∧ ∃ t,
      getArticleFromFilename (lit "2024-03-05" ++ lit "-" ++ lit "Hello%20World" ++ lit ".html")
      = Some {| title := t; date := lit "2024-03-05";
                path := lit "pages/" ++ lit "2024-03-05" ++ lit "-"
                        ++ lit "Hello%20World" ++ lit ".html";
                filename := lit "2024-03-05" ++ lit "-" ++ lit "Hello%20World"
                            ++ lit ".html" |}
      ∧ Decoded (lit "Hello%20World") t.
Proof.
  split; [reflexivity |].
  destruct (proj1 parse_dated_filename (lit "2024-03-05") (lit "Hello%20World"))
    as (t & Hp & HD & _); [reflexivity |].
  exists t. split; [exact Hp | exact HD].
Defined.

(** What a name must be to be parsed. *)
Lemma parse_None_iff file :
  getArticleFromFilename file = None
  ↔ ¬ lit ".html" `suffix_of` file
    ∨ ¬ (∃ d tail_, date_shaped d = true ∧ file = d ++ lit "-" ++ tail_).
Proof.
  split.
  - intros Hn.
    destruct (decide (lit ".html" `suffix_of` file)) as [[k Hk] | ?]; [| by left].
    right. intros (d & tail_ & Hd & ->).
    destruct (html_suffix_of_tail d tail_ Hd (ex_intro _ k Hk)) as [rest ->].
    destruct (parse_well_formed d rest Hd) as (t & _ & Hp). congruence.
  - intros H. destruct (getArticleFromFilename file) as [a|] eqn:E; [| done].
    apply parse_Some_inv in E as (d & rest & Hd & ->).
    destruct H as [H | H]; destruct H.
    + exists (d ++ lit "-" ++ rest). by rewrite <- !app_assoc.
    + eauto.
Qed.

(** ** Sorting *)

Section array_sort.

Context {A : Type} (cmp : A → A → Z).

Lemma sort_insert_Permutation x l : sort_insert cmp x l ≡ₚ x :: l.
Proof.
  induction l as [|y l IH]; [done |]. simpl.
  destruct (cmp x y <=? 0)%Z; [done |]. rewrite IH. apply Permutation_swap.
Qed.

Lemma Array_sort_Permutation l : Array_sort cmp l ≡ₚ l.
Proof.
  induction l as [|x l IH]; [done |]. unfold Array_sort in *. simpl.
  by rewrite sort_insert_Permutation, IH.
Qed.

Lemma elem_of_Array_sort x l : x ∈ Array_sort cmp l ↔ x ∈ l.
Proof. by rewrite Array_sort_Permutation. Qed.

Lemma length_Array_sort l : length (Array_sort cmp l) = length l.
Proof. by rewrite Array_sort_Permutation. Qed.

Context (Hcmp : consistent cmp).

Lemma sort_insert_Sorted x l :
  Sorted (λ a b, (cmp a b ≤ 0)%Z) l →
  Sorted (λ a b, (cmp a b ≤ 0)%Z) (sort_insert cmp x l).
Proof using Hcmp.
  induction 1 as [|y l Hl IH Hy]; simpl.
  - by repeat constructor.
  - destruct (Z.leb_spec (cmp x y) 0) as [Hxy | Hxy].
    + constructor; [by constructor | by constructor].
    + constructor; [done |].
      assert (cmp y x ≤ 0)%Z as Hyx by (destruct (cmp_total _ Hcmp x y); lia).
      destruct Hy as [|z l' Hyz]; simpl; [by constructor |].
      destruct (cmp x z <=? 0)%Z; by constructor.
Qed.

Lemma Array_sort_Sorted l : Sorted (λ a b, (cmp a b ≤ 0)%Z) (Array_sort cmp l).
Proof using Hcmp.
  induction l as [|x l IH]; [constructor |]. by apply sort_insert_Sorted.
Qed.

Lemma Array_sort_StronglySorted l :
  StronglySorted (λ a b, (cmp a b ≤ 0)%Z) (Array_sort cmp l).
Proof using Hcmp.
  apply Sorted_StronglySorted; [| apply Array_sort_Sorted].
  intros a b c. apply (cmp_trans _ Hcmp).
Qed.

End array_sort.

(** The articles of a run are the parsed names, each once per listing. *)
Lemma elem_of_allArticles e allFiles a :
  a ∈ allArticles_of e allFiles
  ↔ ∃ file, file ∈ allFiles ∧ getArticleFromFilename file = Some a.
Proof.
  unfold allArticles_of, Array_filter_Boolean.
  rewrite elem_of_Array_sort, list_elem_of_omap. split.
  - intros (o & Ho & E). apply list_elem_of_fmap in Ho as (file & -> & Hf).
    simpl in E. eauto.
  - intros (file & Hf & E). exists (Some a). split; [| done].
    apply list_elem_of_fmap. eauto.
Qed.

Lemma parse_fields file a :
  getArticleFromFilename file = Some a →
  filename a = file ∧ path a = lit "pages/" ++ file ∧ date_shaped (date a) = true
  ∧ date a `prefix_of` file.
Proof.
  intros E. destruct (parse_Some_inv _ _ E) as (d & rest & Hd & ->).
  destruct (parse_well_formed d rest Hd) as (t & _ & Hp).
  rewrite Hp in E. injection E as <-. simpl.
  split_and!; try done. by eexists.
Qed.

(** C6, as the code has it.  A name that is [index.html], or does not end
    in [.html], or does not start with a date and a hyphen, is parsed to
    [null] and no article of the run bears it; for a name without line
    terminators these are the names the pattern
    [^\d{4}-\d{2}-\d{2}-.*\.html$] does not match. *)
Theorem parse_rejects (file : jsstring) :
  (file = lit "index.html"
   ∨ ¬ lit ".html" `suffix_of` file
   ∨ ¬ (∃ d tail_, date_shaped d = true ∧ file = d ++ lit "-" ++ tail_) →
   getArticleFromFilename file = None
   ∧ ∀ e allFiles a, a ∈ allArticles_of e allFiles → filename a ≠ file)
  ∧ (Forall (λ c, line_terminator c = false) file →
     (¬ matches_article_pattern file
      ↔ ¬ lit ".html" `suffix_of` file
        ∨ ¬ (∃ d tail_, date_shaped d = true ∧ file = d ++ lit "-" ++ tail_))).
Proof.
  split.
  - intros H.
    assert (getArticleFromFilename file = None) as Hn.
    { destruct H as [-> | H]; [by vm_compute | by apply parse_None_iff]. }
    split; [done |]. intros e allFiles a Ha <-.
    apply elem_of_allArticles in Ha as (file & _ & E).
    pose proof (parse_fields _ _ E) as (Hf & _). rewrite Hf in Hn. congruence.
  - intros Hlt. rewrite <- parse_None_iff. split.
    + intros Hn. destruct (getArticleFromFilename file) as [a|] eqn:E; [| done].
      destruct Hn. apply parse_Some_inv in E as (d & rest & Hd & ->).
      exists d, rest. split_and!; [done | | done].
      rewrite !Forall_app in Hlt. tauto.
    + intros Hn (d & mid & Hd & _ & ->).
      destruct (parse_well_formed d mid Hd) as (t & _ & Hp). congruence.
Qed.

Lemma parse_rejects_witness :
  getArticleFromFilename (lit "notes.txt") = None
  ∧ (¬ matches_article_pattern (lit "2024-03-05.html")
     ↔ ¬ lit ".html" `suffix_of` lit "2024-03-05.html"
       ∨ ¬ (∃ d tail_, date_shaped d = true
                        ∧ lit "2024-03-05.html" = d ++ lit "-" ++ tail_)).
Proof.
  split.
  - apply (proj1 (parse_rejects (lit "notes.txt"))). right. left. by_compute.
  - apply (proj2 (parse_rejects (lit "2024-03-05.html"))). by_compute.
Defined.

(** C6, as the specification words it, fails: a name with a line feed in
    its title is not matched by the pattern, whose [.] stops at a line
    terminator, and is parsed all the same. *)
Lemma parse_accepts_line_feed :
  ¬ matches_article_pattern (lit "2024-03-05-a" ++ nl ++ lit "b.html")
  ∧ getArticleFromFilename (lit "2024-03-05-a" ++ nl ++ lit "b.html")
    = Some {| title := lit "a" ++ nl ++ lit "b"; date := lit "2024-03-05";
              path := lit "pages/2024-03-05-a" ++ nl ++ lit "b.html";
              filename := lit "2024-03-05-a" ++ nl ++ lit "b.html" |}.
Proof.
  split; [| by vm_compute].
  intros (d & mid & Hd & Hmid & E).
  do 11 (destruct d as [|? d]; try discriminate Hd).
  vm_compute in E. injection E as _ _ _ _ _ _ _ _ _ _ E.
  change (lit "a" ++ nl ++ lit "b" ++ lit ".html" = mid ++ lit ".html") in E.
  rewrite 2!app_assoc in E. apply app_inv_tail in E as <-.
  rewrite !Forall_app in Hmid. destruct Hmid as [[_ Hnl] _].
  by inversion Hnl.
Qed.

(** ** Pagination *)

Section pagination.

Local Open Scope Z_scope.

Lemma Math_ceil_div_eq a p : Math_ceil_div a (Zpos p) = - (- a / Zpos p).
Proof.
  unfold Math_ceil_div, Qceiling, Qfloor, Qdiv, Qinv, Qmult, Qopp, inject_Z.
  cbn. by rewrite Z.mul_1_r.
Qed.

(** The ceiling of the quotient: the least [k] with [a <= b * k]. *)
Lemma Math_ceil_div_bounds a p :
  Zpos p * (Math_ceil_div a (Zpos p) - 1) < a ≤ Zpos p * Math_ceil_div a (Zpos p).
Proof.
  rewrite Math_ceil_div_eq.
  pose proof (Z.mul_div_le (- a) (Zpos p) eq_refl).
  pose proof (Z.mul_succ_div_gt (- a) (Zpos p) eq_refl).
  lia.
Qed.

Lemma totalPages_bounds (allArticles : list Article) :
  10 * (totalPages_of allArticles - 1) < Z.of_nat (length allArticles)
    ≤ 10 * totalPages_of allArticles.
Proof. apply Math_ceil_div_bounds. Qed.

Lemma pageArticles_take_drop (allArticles : list Article) i :
  1 ≤ i →
  pageArticles_of allArticles i
  = take 10 (drop (10 * Z.to_nat (i - 1)) allArticles).
Proof.
  intros Hi. unfold pageArticles_of, Array_slice, POSTS_PER_PAGE.
  f_equal; [lia | f_equal; lia].
Qed.

Lemma lookup_pageArticles (allArticles : list Article) i (j : nat) :
  1 ≤ i →
  pageArticles_of allArticles i !! j
  = if decide (j < 10)%nat then allArticles !! (10 * Z.to_nat (i - 1) + j)%nat
    else None.
Proof.
  intros Hi. rewrite pageArticles_take_drop by done. case_decide.
  - by rewrite lookup_take_lt, lookup_drop.
  - apply lookup_take_ge. lia.
Qed.

Lemma length_pageArticles (allArticles : list Article) i :
  1 ≤ i →
  Z.of_nat (length (pageArticles_of allArticles i))
  = Z.max 0 (Z.min 10 (Z.of_nat (length allArticles) - 10 * (i - 1))).
Proof.
  intros Hi. rewrite pageArticles_take_drop by done.
  rewrite length_take, length_drop. lia.
Qed.

End pagination.

(** C3.  [totalPages] is the ceiling of a tenth of the number of articles:
    the least integer whose tenfold reaches that number.  Page [i], from 1
    to [totalPages], holds the articles at the indices from [10 (i - 1)]
    up to, not including, [10 i], as many of them as exist, and never none;
    25 articles make 3 pages of 10, 10 and 5. *)
Theorem pagination_slices (allArticles : list Article) :
  let n := Z.of_nat (length allArticles) in
  let totalPages := totalPages_of allArticles in
  (10 * (totalPages - 1) < n ≤ 10 * totalPages)%Z
  ∧ (∀ i : Z, (1 ≤ i ≤ totalPages)%Z →
       (∀ j : nat,
          pageArticles_of allArticles i !! j
          = if decide (j < 10) then allArticles !! (10 * Z.to_nat (i - 1) + j)
            else None)
       ∧ Z.of_nat (length (pageArticles_of allArticles i))
         = Z.min 10 (n - 10 * (i - 1))
       ∧ pageArticles_of allArticles i ≠ [])
  ∧ (length allArticles = 25 →
       totalPages = 3%Z
       ∧ length (pageArticles_of allArticles 1) = 10
       ∧ length (pageArticles_of allArticles 2) = 10
       ∧ length (pageArticles_of allArticles 3) = 5).
Proof.
  intros n totalPages. pose proof (totalPages_bounds allArticles) as Hb.
  fold n totalPages in Hb. split_and!.
  - lia.
  - lia.
  - intros i Hi.
    pose proof (length_pageArticles allArticles i) as Hl. fold n in Hl.
    split_and!.
    + intros j. apply lookup_pageArticles. lia.
    + lia.
    + intros E. rewrite E in Hl. simpl in Hl. lia.
  - intros H25.
    pose proof (length_pageArticles allArticles 1) as H1.
    pose proof (length_pageArticles allArticles 2) as H2.
    pose proof (length_pageArticles allArticles 3) as H3.
    subst n. rewrite H25 in *. lia.
Qed.

Lemma pagination_slices_witness :
  let allArticles :=
    replicate 25 {| title := []; date := []; path := []; filename := [] |} in
  totalPages_of allArticles = 3%Z
  ∧ length (pageArticles_of allArticles 1) = 10
  ∧ length (pageArticles_of allArticles 2) = 10
  ∧ length (pageArticles_of allArticles 3) = 5.
Proof.
  intros allArticles.
  apply (proj2 (proj2 (pagination_slices allArticles))). reflexivity.
Defined.

(** ** The pagination fragment *)

Lemma occurs_elem_of (pat s : jsstring) c : occurs pat s → c ∈ pat → c ∈ s.
Proof. intros (a & b & ->) Hc. rewrite !elem_of_app. auto. Qed.

Lemma uint_units_digits u c : c ∈ uint_units u → is_digit c = true.
Proof.
  induction u; simpl; intros Hc;
    first [ by apply elem_of_nil in Hc
          | apply elem_of_cons in Hc as [-> | Hc]; [done | by apply IHu] ].
Qed.

(** The decimal form of an integer: digits, after a sign when negative. *)
Lemma Number_toString_units z c :
  c ∈ Number_toString z → is_digit c = true ∨ c = 45%N.
Proof.
  destruct z as [|p|p]; simpl.
  - intros Hc. left. vm_compute in Hc. by apply list_elem_of_singleton in Hc as ->.
  - intros Hc. left. by eapply uint_units_digits.
  - change (lit "-") with [45%N]. intros [-> | Hc]%elem_of_cons; [by right |].
    left. by eapply uint_units_digits.
Qed.

(** C4.  On page [currentPage] of [totalPages] the fragment is the opening
    tag, the previous link unless this is page 1 (to [/] from page 2, to
    [/archives/<currentPage - 1>/] from a later page), the indicator with
    both numbers, the next link unless this is the last page (to
    [/archives/<currentPage + 1>/]), and the closing tag; the label of a
    link that is left out is nowhere in the fragment. *)
Theorem pagination_fragment (currentPage totalPages : Z) :
  (1 ≤ currentPage ≤ totalPages)%Z →
  let html := generatePaginationHtml currentPage totalPages in
  let prevPagePath :=
    if decide (currentPage = 2%Z) then lit "/"
    else lit "/archives/" ++ Number_toString (currentPage - 1) ++ lit "/" in
  let previous :=
    if decide (currentPage = 1%Z) then []
    else lit "<a " ++ attr "href" prevPagePath ++ lit " "
         ++ attr "class" (lit "pagination-link") ++ lit ">« 上一页</a>" in
  let indicator :=
    lit "<span " ++ attr "class" (lit "pagination-current") ++ lit ">第 "
    ++ Number_toString currentPage ++ lit " / " ++ Number_toString totalPages
    ++ lit " 页</span>" in
  let next :=
    if decide (currentPage = totalPages) then []
    else lit "<a " ++ attr "href"
           (lit "/archives/" ++ Number_toString (currentPage + 1) ++ lit "/")
         ++ lit " " ++ attr "class" (lit "pagination-link") ++ lit ">下一页 »</a>" in
  html = lit "<div " ++ attr "class" (lit "pagination") ++ lit ">"
         ++ previous ++ indicator ++ next ++ lit "</div>"
  ∧ (currentPage = 1%Z → ¬ occurs (lit "上一页") html)
  ∧ (currentPage = totalPages → ¬ occurs (lit "下一页") html)
  ∧ occurs indicator html.
Proof.
  intros Hr html prevPagePath previous indicator next.
  assert (html = lit "<div " ++ attr "class" (lit "pagination") ++ lit ">"
                 ++ previous ++ indicator ++ next ++ lit "</div>") as Hhtml.
  { subst html previous prevPagePath next indicator. unfold generatePaginationHtml.
    destruct (Z.ltb_spec 1 currentPage), (Z.eqb_spec currentPage 2),
      (Z.ltb_spec currentPage totalPages);
      repeat case_decide; try lia; by rewrite <- ?app_assoc, ?app_nil_r. }
  split_and!.
  - done.
  - intros -> Ho. apply (occurs_elem_of _ _ 19978%N) in Ho; [| by_compute].
    rewrite Hhtml in Ho. subst previous indicator next. unfold attr in Ho.
    case_decide; [| done]. case_decide; absent_unit Ho Number_toString_units.
  - intros Heq Ho. apply (occurs_elem_of _ _ 19979%N) in Ho; [| by_compute].
    rewrite Hhtml in Ho. subst previous prevPagePath indicator next.
    unfold attr in Ho.
    destruct (decide (currentPage = totalPages)); [| done].
    repeat case_decide; absent_unit Ho Number_toString_units.
  - rewrite Hhtml.
    exists (lit "<div " ++ attr "class" (lit "pagination") ++ lit ">" ++ previous),
      (next ++ lit "</div>").
    by rewrite <- !app_assoc.
Qed.

Lemma pagination_fragment_witness :
  generatePaginationHtml 2 3
  = lit "<div " ++ attr "class" (lit "pagination") ++ lit ">"
    ++ (lit "<a " ++ attr "href" (lit "/") ++ lit " "
        ++ attr "class" (lit "pagination-link") ++ lit ">« 上一页</a>")
    ++ (lit "<span " ++ attr "class" (lit "pagination-current") ++ lit ">第 "
        ++ Number_toString 2 ++ lit " / " ++ Number_toString 3 ++ lit " 页</span>")
    ++ (lit "<a " ++ attr "href" (lit "/archives/" ++ Number_toString (2 + 1) ++ lit "/")
        ++ lit " " ++ attr "class" (lit "pagination-link") ++ lit ">下一页 »</a>")
    ++ lit "</div>".
Proof.
  apply (pagination_fragment 2 3). lia.
Defined.

(** The three pages of the specification's example. *)
Example pagination_1_of_3 :
  generatePaginationHtml 1 3
  = lit "<div class=" ++ dq ++ lit "pagination" ++ dq
    ++ lit "><span class=" ++ dq ++ lit "pagination-current" ++ dq
    ++ lit ">第 1 / 3 页</span><a href=" ++ dq ++ lit "/archives/2/" ++ dq
    ++ lit " class=" ++ dq ++ lit "pagination-link" ++ dq ++ lit ">下一页 »</a></div>".
Proof. by vm_compute. Qed.

Example pagination_2_of_3 :
  generatePaginationHtml 2 3
  = lit "<div class=" ++ dq ++ lit "pagination" ++ dq
    ++ lit "><a href=" ++ dq ++ lit "/" ++ dq
    ++ lit " class=" ++ dq ++ lit "pagination-link" ++ dq
    ++ lit ">« 上一页</a><span class=" ++ dq ++ lit "pagination-current" ++ dq
    ++ lit ">第 2 / 3 页</span><a href=" ++ dq ++ lit "/archives/3/" ++ dq
    ++ lit " class=" ++ dq ++ lit "pagination-link" ++ dq ++ lit ">下一页 »</a></div>".
Proof. by vm_compute. Qed.

Example pagination_3_of_3 :
  generatePaginationHtml 3 3
  = lit "<div class=" ++ dq ++ lit "pagination" ++ dq
    ++ lit "><a href=" ++ dq ++ lit "/archives/2/" ++ dq
    ++ lit " class=" ++ dq ++ lit "pagination-link" ++ dq
    ++ lit ">« 上一页</a><span class=" ++ dq ++ lit "pagination-current" ++ dq
    ++ lit ">第 3 / 3 页</span></div>".
Proof. by vm_compute. Qed.

(** ** The order of strings by code units *)

Section str_compare.

Implicit Types a b c : jsstring.

Lemma str_compare_Eq a b : str_compare a b = Eq ↔ a = b.
Proof.
  revert b. induction a as [|x a IH]; intros [|y b]; simpl; try done.
  destruct (N.compare_spec x y) as [-> | ? | ?].
  - rewrite IH. split; congruence.
  - split; [done | intros [= -> _]; lia].
  - split; [done | intros [= -> _]; lia].
Qed.

Lemma str_compare_antisym a b : str_compare b a = CompOpp (str_compare a b).
Proof.
  revert b. induction a as [|x a IH]; intros [|y b]; simpl; try done.
  rewrite (N.compare_antisym x y).
  destruct (x ?= y)%N; simpl; [apply IH | done | done].
Qed.

Lemma str_compare_trans a b c :
  str_compare a b ≠ Gt → str_compare b c ≠ Gt → str_compare a c ≠ Gt.
Proof.
  revert b c. induction a as [|x a IH]; intros [|y b] [|z c]; simpl; try done.
  destruct (N.compare_spec x y) as [-> | ? | ?]; [| | done].
  - destruct (N.compare_spec y z) as [-> | ? | ?]; [apply IH | done | done].
  - destruct (N.compare_spec y z) as [-> | ? | ?]; [| | done]; intros _ _.
    + by destruct (N.compare_spec x z) as [-> | ? | ?]; [lia | | lia].
    + by destruct (N.compare_spec x z) as [-> | ? | ?]; [lia | | lia].
Qed.

Lemma sort_compare_le a b : (sort_compare a b ≤ 0)%Z ↔ str_compare a b ≠ Gt.
Proof. unfold sort_compare. destruct (str_compare a b); split; (done || lia). Qed.

Lemma sort_compare_consistent : consistent sort_compare.
Proof.
  split.
  - intros a b. rewrite !sort_compare_le, (str_compare_antisym a b).
    destruct (str_compare a b); simpl; auto.
  - intros a b c. rewrite !sort_compare_le. apply str_compare_trans.
Qed.

(** Sorting by a key of any kind keeps a comparator consistent. *)
Lemma consistent_on {A B} (cmp : B → B → Z) (key : A → B) :
  consistent cmp → consistent (λ x y, cmp (key x) (key y)).
Proof. intros [Ht Htr]. split; eauto. Qed.

Lemma consistent_flip {A} (cmp : A → A → Z) :
  consistent cmp → consistent (λ x y, cmp y x).
Proof.
  intros [Ht Htr]. split.
  - intros a b. destruct (Ht a b); auto.
  - eauto.
Qed.

(** Distinct strings sorted and reversed are strictly descending. *)
Lemma sort_default_reverse_descending (l : list jsstring) :
  NoDup l →
  StronglySorted (λ a b, str_compare a b = Gt) (reverse (Array_sort_default l)).
Proof.
  intros Hnd.
  pose proof (Array_sort_StronglySorted sort_compare sort_compare_consistent l) as Hs.
  assert (NoDup (Array_sort_default l)) as Hnd'
    by (unfold Array_sort_default; by rewrite Array_sort_Permutation).
  fold (Array_sort_default l) in Hs.
  induction Hs as [|x k Hk IH Hx].
  - constructor.
  - rewrite reverse_cons. apply NoDup_cons in Hnd' as [Hxk Hnd'].
    apply StronglySorted_app_2; [| by apply IH | repeat constructor].
    intros y z Hy Hz. rewrite elem_of_reverse in Hy.
    apply list_elem_of_singleton in Hz as ->.
    rewrite Forall_forall in Hx. specialize (Hx y Hy).
    apply sort_compare_le in Hx. rewrite str_compare_antisym.
    destruct (str_compare x y) eqn:E; [| done | done].
    apply str_compare_Eq in E as ->. done.
Qed.

End str_compare.

(** ** The article-list fragment *)

Section articles_fragment.

Implicit Types (articles : list Article) (g : gmap jsstring (list Article)).

Lemma group_step_lookup g a g' d :
  group_step g a = Some g' →
  g' !! d = if decide (d = date a) then Some (default [] (g !! d) ++ [a]) else g !! d.
Proof.
  unfold group_step. case_bool_decide; [done |]. intros [= <-].
  rewrite lookup_alter. case_decide as Hd; [subst d | ].
  - rewrite decide_True by done.
    destruct (g !! date a) as [l|] eqn:E; [by rewrite E |].
    by rewrite lookup_insert_eq.
  - rewrite decide_False by done.
    destruct (g !! date a); [done |]. by rewrite lookup_insert_ne.
Qed.

Lemma group_articles_lookup articles g0 g d :
  group_articles g0 articles = Some g →
  g !! d = match of_date d articles with
           | [] => g0 !! d
           | members => Some (default [] (g0 !! d) ++ members)
           end.
Proof.
  revert g0. induction articles as [|a articles IH]; intros g0; simpl.
  - by intros [= <-].
  - destruct (group_step g0 a) as [g1|] eqn:E1; [| done]. simpl. intros Hg.
    rewrite (IH _ Hg), (group_step_lookup _ _ _ d E1). unfold of_date.
    case_decide as Hd.
    + rewrite filter_cons_True by done. simpl.
      destruct (filter _ articles); [done |]. by rewrite <- app_assoc.
    + rewrite filter_cons_False by done. done.
Qed.

Lemma group_articles_Some articles g0 :
  Forall (λ a, date a ∉ Object_prototype_keys) articles →
  is_Some (group_articles g0 articles).
Proof.
  intros H. revert g0. induction H as [|a articles Ha H IH]; intros g0; simpl.
  - eauto.
  - unfold group_step. rewrite bool_decide_eq_false_2 by done. simpl. apply IH.
Qed.

Lemma foldl_app_concat {A} (f : jsstring → A → jsstring) (h : A → jsstring) l html :
  (∀ html x, f html x = html ++ h x) →
  foldl f html l = html ++ concat (map h l).
Proof.
  intros Hf. revert html. induction l as [|x l IH]; intros html; simpl.
  - by rewrite app_nil_r.
  - by rewrite IH, Hf, <- app_assoc.
Qed.

Lemma of_date_nil_iff d articles :
  of_date d articles ≠ [] ↔ ∃ a, a ∈ articles ∧ date a = d.
Proof.
  unfold of_date. split.
  - destruct (filter _ articles) as [|a l] eqn:E; [done |]. intros _.
    assert (a ∈ filter (λ a, date a = d) articles) as Ha by (rewrite E; left).
    apply list_elem_of_filter in Ha as [? ?]. eauto.
  - intros (a & Ha & Hd) E.
    assert (a ∈ filter (λ a, date a = d) articles) as Hf
      by (by apply list_elem_of_filter).
    rewrite E in Hf. by apply elem_of_nil in Hf.
Qed.

(** The fragment: one group for each date that occurs, the dates strictly
    descending by code units, each group holding the articles of its date
    in the order of the list. *)
Lemma generateArticlesHtml_groups articles html :
  generateArticlesHtml articles = Some html →
  ∃ dates,
    html = concat (map (λ d, date_group d (of_date d articles)) dates)
    ∧ StronglySorted (λ d1 d2, str_compare d1 d2 = Gt) dates
    ∧ ∀ d, d ∈ dates ↔ ∃ a, a ∈ articles ∧ date a = d.
Proof.
  unfold generateArticlesHtml.
  destruct (group_articles ∅ articles) as [g|] eqn:Hg; [| done].
  simpl. intros [= <-].
  assert (∀ d, g !! d = match of_date d articles with
                        | [] => None | members => Some members end) as Hl.
  { intros d. rewrite (group_articles_lookup _ _ _ d Hg), lookup_empty.
    by destruct (of_date d articles). }
  exists (reverse (Array_sort_default (Object_keys g))). split_and!.
  - rewrite (foldl_app_concat _
      (λ d, date_group d (default [] (g !! d)))); [simpl |].
    + f_equal. apply map_ext. intros d. rewrite Hl.
      by destruct (of_date d articles).
    + intros h d. unfold date_group.
      rewrite (foldl_app_concat _ article_item) by done.
      by rewrite <- !app_assoc.
  - apply sort_default_reverse_descending, NoDup_fst_map_to_list.
  - intros d. rewrite elem_of_reverse. unfold Array_sort_default.
    rewrite elem_of_Array_sort. unfold Object_keys.
    rewrite <- of_date_nil_iff. rewrite list_elem_of_fmap. split.
    + intros ([d' l] & -> & Hdl). apply elem_of_map_to_list in Hdl.
      simpl. rewrite Hl in Hdl. by destruct (of_date d' articles).
    + intros Hne. exists (d, of_date d articles). split; [done |].
      apply elem_of_map_to_list. rewrite Hl.
      by destruct (of_date d articles).
Qed.

(** Dates taken from file names are not names of inherited properties. *)
Lemma date_shaped_not_inherited d :
  date_shaped d = true → d ∉ Object_prototype_keys.
Proof.
  intros Hd Hin.
  assert (Forall (λ k, date_shaped k = false) Object_prototype_keys) as HF
    by by_compute.
  rewrite Forall_forall in HF. specialize (HF d Hin). congruence.
Qed.

(** The fragment is made whenever no date names an inherited property. *)
Lemma generateArticlesHtml_Some articles :
  Forall (λ a, date a ∉ Object_prototype_keys) articles →
  is_Some (generateArticlesHtml articles).
Proof.
  intros H. unfold generateArticlesHtml.
  destruct (group_articles_Some articles ∅ H) as [g ->]. by eexists.
Qed.

Lemma parsed_not_inherited articles :
  Forall (λ a, ∃ file, getArticleFromFilename file = Some a) articles →
  Forall (λ a, date a ∉ Object_prototype_keys) articles.
Proof.
  intros H. eapply Forall_impl; [exact H |]. intros a [file Hf]. simpl.
  apply date_shaped_not_inherited. by apply parse_fields in Hf as (_ & _ & ? & _).
Qed.

Lemma generateArticlesHtml_parsed articles :
  Forall (λ a, ∃ file, getArticleFromFilename file = Some a) articles →
  is_Some (generateArticlesHtml articles).
Proof. intros H. by apply generateArticlesHtml_Some, parsed_not_inherited. Qed.

Lemma occurs_middle (pat s x y : jsstring) : occurs pat s → occurs pat (x ++ s ++ y).
Proof.
  intros (a & b & ->). exists (x ++ a), (b ++ y). by rewrite <- !app_assoc.
Qed.

Lemma occurs_concat {A} (h : A → jsstring) (l : list A) x :
  x ∈ l → occurs (h x) (concat (map h l)).
Proof.
  intros (l1 & l2 & ->)%list_elem_of_split.
  exists (concat (map h l1)), (concat (map h l2)).
  by rewrite map_app, concat_app.
Qed.

(** Every article of the list has its entry in the fragment. *)
Lemma article_item_occurs articles html a :
  generateArticlesHtml articles = Some html → a ∈ articles →
  occurs (article_item a) html.
Proof.
  intros Hh Ha.
  destruct (generateArticlesHtml_groups _ _ Hh) as (dates & -> & _ & Hd).
  assert (date a ∈ dates) as Hin by (apply Hd; eauto).
  assert (a ∈ of_date (date a) articles) as Hm
    by (by apply list_elem_of_filter).
  destruct (occurs_concat (λ d, date_group d (of_date d articles)) dates _ Hin)
    as (x & y & ->).
  apply occurs_middle. unfold date_group. apply occurs_middle.
  by apply occurs_concat.
Qed.

End articles_fragment.

Lemma quote_escaped_no_quote text : 34%N ∉ quote_escaped text.
Proof.
  unfold quote_escaped. induction text as [|c text IH]; [by apply not_elem_of_nil |].
  rewrite bind_cons, elem_of_app. intros [H | H]; [| done].
  destruct (N.eqb_spec c 34) as [-> | Hc].
  - revert H. by_compute.
  - apply list_elem_of_singleton in H. congruence.
Qed.

Lemma quote_escaped_id text : 34%N ∉ text → quote_escaped text = text.
Proof.
  unfold quote_escaped. induction text as [|c text IH]; [done |]. intros Hn.
  rewrite bind_cons. rewrite not_elem_of_cons in Hn. destruct Hn as [Hc Hn].
  rewrite (IH Hn). destruct (N.eqb_spec c 34); [congruence | done].
Qed.

(** C5.  For a list of articles none of whose dates names an inherited
    property (no date taken from a file name does), the fragment is made
    and holds the entry of every article of the list: the title as it is in
    the link text and, in the [data-title] attribute, the title with each
    double quote turned to [&quot;] and no other unit changed.  The
    attribute value holds no double quote, and a title without one is there
    as it is. *)
Theorem entry_title_escaping (articles : list Article) (a : Article) :
  Forall (λ a, date a ∉ Object_prototype_keys) articles →
  a ∈ articles →
  ∃ html,
    generateArticlesHtml articles = Some html
    ∧ occurs (expected_entry a) html
    ∧ (34%N ∉ quote_escaped (title a))
    ∧ (34%N ∉ title a → quote_escaped (title a) = title a).
Proof.
  intros Hd Ha. destruct (generateArticlesHtml_Some articles Hd) as [html Hh].
  exists html. split_and!.
  - done.
  - unfold expected_entry. rewrite <- escapeHtml_quote_escaped.
    by apply (article_item_occurs articles).
  - apply quote_escaped_no_quote.
  - apply quote_escaped_id.
Qed.

Lemma entry_title_escaping_witness :
  let a := {| title := lit "a" ++ dq ++ lit "b"; date := lit "2024-01-01";
              path := lit "pages/2024-01-01-a" ++ dq ++ lit "b.html";
              filename := lit "2024-01-01-a" ++ dq ++ lit "b.html" |} in
  ∃ html,
    generateArticlesHtml [a] = Some html
    ∧ occurs (expected_entry a) html
    ∧ (34%N ∉ quote_escaped (title a))
    ∧ (34%N ∉ title a → quote_escaped (title a) = title a).
Proof.
  intros a. apply (entry_title_escaping [a] a); [by_compute | by left].
Defined.

(** The escaped title of the article above. *)
Example quote_escaped_a_b :
  quote_escaped (lit "a" ++ dq ++ lit "b") = lit "a&quot;b".
Proof. reflexivity. Qed.

Lemma occurs_trans (p q s : jsstring) : occurs p q → occurs q s → occurs p s.
Proof. intros Hp (x & y & ->). by apply occurs_middle. Qed.

Lemma occurs_app_r (p x s : jsstring) : occurs p s → occurs p (x ++ s).
Proof. intros (a & b & ->). exists (x ++ a), b. by rewrite <- app_assoc. Qed.

Lemma occurs_prefix (p s : jsstring) : occurs p (p ++ s).
Proof. by exists [], s. Qed.

(** The [data-path] attribute of an entry, with the end of the tag. *)
Lemma data_path_occurs a :
  occurs (lit " " ++ attr "data-path" (path a) ++ lit ">复制链接</button>")
         (article_item a).
Proof.
  unfold article_item. do 19 apply occurs_app_r.
  exists [], (nl ++ lit "        </li>" ++ nl). by rewrite <- !app_assoc.
Qed.

Lemma data_title_occurs a :
  occurs (attr "data-title" (escapeHtml (title a))) (article_item a).
Proof. unfold article_item. do 18 apply occurs_app_r. apply occurs_prefix. Qed.

(** C10.  For a list of articles none of whose dates names an inherited
    property, the fragment is made and the [data-path] attribute of the
    entry of a parsed file is [pages/] and the file name, unit for unit; a
    name with a double quote puts that quote into the attribute as it is,
    while the title beside it is escaped. *)
Theorem entry_path_verbatim :
  (∀ (articles : list Article) (file : jsstring) (a : Article),
     Forall (λ a, date a ∉ Object_prototype_keys) articles →
     a ∈ articles →
     getArticleFromFilename file = Some a →
     ∃ html,
       generateArticlesHtml articles = Some html
       ∧ occurs (lit " " ++ attr "data-path" (lit "pages/" ++ file)
                 ++ lit ">复制链接</button>") html)
  ∧ ∃ (a : Article) (html : jsstring),
      getArticleFromFilename (lit "2024-01-01-a" ++ dq ++ lit "b.html") = Some a
      ∧ generateArticlesHtml [a] = Some html
      ∧ occurs (lit " " ++ attr "data-path" (lit "pages/2024-01-01-a" ++ dq ++ lit "b.html")
                ++ lit ">复制链接</button>") html
      ∧ occurs (attr "data-title" (lit "a&quot;b")) html.
Proof.
  assert (∀ (articles : list Article) (html file : jsstring) (a : Article),
            generateArticlesHtml articles = Some html →
            a ∈ articles →
            getArticleFromFilename file = Some a →
            occurs (lit " " ++ attr "data-path" (lit "pages/" ++ file)
                    ++ lit ">复制链接</button>") html) as Hall.
  { intros articles html file a Hh Ha Hf.
    apply parse_fields in Hf as (_ & <- & _).
    eapply occurs_trans; [apply data_path_occurs |].
    by apply (article_item_occurs articles). }
  split.
  { intros articles file a Hd Ha Hf.
    destruct (generateArticlesHtml_Some articles Hd) as [html Hh]. eauto. }
  destruct (getArticleFromFilename (lit "2024-01-01-a" ++ dq ++ lit "b.html"))
    as [a|] eqn:Hf; [| by vm_compute in Hf].
  destruct (generateArticlesHtml [a]) as [html|] eqn:Hh.
  - exists a, html. split_and!; [done | done | |].
    + apply (Hall [a] html _ a Hh); [by left | done].
    + eapply occurs_trans; [| apply (article_item_occurs [a] html a Hh); by left].
      vm_compute in Hf. injection Hf as <-. apply data_title_occurs.
  - vm_compute in Hf. injection Hf as <-. by vm_compute in Hh.
Qed.

Lemma entry_path_verbatim_witness :
  let file := lit "2024-01-01-a" ++ dq ++ lit "b.html" in
  let a := {| title := lit "a" ++ dq ++ lit "b"; date := lit "2024-01-01";
              path := lit "pages/" ++ file; filename := file |} in
  ∃ html,
    generateArticlesHtml [a] = Some html
    ∧ occurs (lit " " ++ attr "data-path" (lit "pages/" ++ file)
              ++ lit ">复制链接</button>") html.
Proof.
  intros file a.
  apply (proj1 entry_path_verbatim [a] file a); [by_compute | by left | reflexivity].
Defined.

(** ** Sorting and grouping in a run *)

Lemma caseless_compare_consistent : consistent caseless_compare.
Proof. apply (consistent_on sort_compare collation_key), sort_compare_consistent. Qed.

Lemma omap_id_fmap {A B} (f : A → option B) (l : list A) :
  Array_filter_Boolean (map f l) = omap f l.
Proof.
  unfold Array_filter_Boolean. induction l as [|x l IH]; [done |].
  cbn [map omap list_omap]. rewrite IH. by destruct (f x).
Qed.

Lemma pageArticles_sublist (allArticles : list Article) i :
  pageArticles_of allArticles i `sublist_of` allArticles.
Proof.
  unfold pageArticles_of, Array_slice.
  etrans; [apply sublist_take | apply sublist_drop].
Qed.

Lemma pageArticles_parsed e allFiles i :
  Forall (λ a, ∃ file, getArticleFromFilename file = Some a)
         (pageArticles_of (allArticles_of e allFiles) i).
Proof.
  apply Forall_forall. intros a Ha.
  eapply sublist_subseteq in Ha; [| apply pageArticles_sublist].
  apply elem_of_allArticles in Ha as (file & _ & Hf). eauto.
Qed.

(** C2, as the code has it.  The articles of a run are the parsed names
    sorted descending by [localeCompare], the comparison of the host's
    collation, which is a consistent comparator; the fragment of a page has
    one group for each of its dates, the dates strictly descending by code
    units, and a group holds the articles of its date in the order they
    have in the sorted list. *)
Theorem articles_sorted_and_grouped (e : Env) (allFiles : list jsstring) :
  consistent (localeCompare e) →
  let allArticles := allArticles_of e allFiles in
  allArticles ≡ₚ omap getArticleFromFilename allFiles
  ∧ StronglySorted
      (λ a b, (localeCompare e (filename b) (filename a) ≤ 0)%Z) allArticles
  ∧ ∀ i : Z,
      ∃ (html : jsstring) (dates : list jsstring),
        generateArticlesHtml (pageArticles_of allArticles i) = Some html
        ∧ html = concat (map (λ d, date_group d
                                     (of_date d (pageArticles_of allArticles i)))
                             dates)
        ∧ StronglySorted (λ d1 d2, str_compare d1 d2 = Gt) dates
        ∧ (∀ d, d ∈ dates ↔ ∃ a, a ∈ pageArticles_of allArticles i ∧ date a = d)
        ∧ (∀ d, of_date d (pageArticles_of allArticles i) `sublist_of` allArticles).
Proof.
  intros He allArticles. split_and!.
  - unfold allArticles, allArticles_of.
    by rewrite Array_sort_Permutation, omap_id_fmap.
  - apply (Array_sort_StronglySorted
             (λ a b, localeCompare e (filename b) (filename a))).
    apply (consistent_on (λ x y, localeCompare e y x) filename).
    by apply consistent_flip.
  - intros i.
    destruct (generateArticlesHtml_parsed _ (pageArticles_parsed e allFiles i))
      as [html Hh].
    destruct (generateArticlesHtml_groups _ _ Hh) as (dates & Hhtml & Hs & Hd).
    exists html, dates. split_and!; try done.
    intros d. etrans; [apply sublist_filter | apply pageArticles_sublist].
Qed.

Lemma articles_sorted_and_grouped_witness :
  let e := {| pagesDir := None; templatePath := None; currentYear := 2024;
              localeCompare := caseless_compare |} in
  let allFiles := [lit "2024-01-01-a.html"; lit "2024-01-02-B.html"] in
  StronglySorted
    (λ a b, (localeCompare e (filename b) (filename a) ≤ 0)%Z)
    (allArticles_of e allFiles).
Proof.
  intros e allFiles.
  apply (articles_sorted_and_grouped e allFiles). simpl.
  apply caseless_compare_consistent.
Defined.

(** C2, as the specification words it, fails: under a collation that
    ranks [a] before [B], as those behind [localeCompare] do, the sorted
    list has [B] first, and by code units [B] is below [a]. *)
Lemma sorted_by_collation_not_code_units :
  let e := {| pagesDir := None; templatePath := None; currentYear := 2024;
              localeCompare := caseless_compare |} in
  let allFiles := [lit "2024-01-01-a.html"; lit "2024-01-01-B.html"] in
  consistent (localeCompare e)
  ∧ filename <$> allArticles_of e allFiles
    = [lit "2024-01-01-B.html"; lit "2024-01-01-a.html"]
  ∧ str_compare (lit "2024-01-01-B.html") (lit "2024-01-01-a.html") = Lt
  ∧ ¬ StronglySorted
        (λ a b, str_compare (filename a) (filename b) ≠ Lt)
        (allArticles_of e allFiles).
Proof.
  intros e allFiles. split_and!.
  - apply caseless_compare_consistent.
  - by vm_compute.
  - by vm_compute.
  - intros Hs.
    assert (allArticles_of e allFiles
            = [ {| title := lit "B"; date := lit "2024-01-01";
                   path := lit "pages/2024-01-01-B.html";
                   filename := lit "2024-01-01-B.html" |};
                {| title := lit "a"; date := lit "2024-01-01";
                   path := lit "pages/2024-01-01-a.html";
                   filename := lit "2024-01-01-a.html" |} ]) as E
      by (by vm_compute).
    rewrite E in Hs. apply StronglySorted_inv in Hs as [_ Hf].
    apply Forall_cons in Hf as [Hf _]. apply Hf. by vm_compute.
Qed.

(** ** The run *)

(** After the first five statements of [run]: the old tree is gone, the new
    one holds the copy of [pages], two lines are printed. *)
Lemma run_reset_and_copy e site entries :
  pagesDir e = Some (Dir entries) →
  run e (start site)
  = (let allArticles := allArticles_of e entries.*1 in
     if bool_decide (length allArticles = 0) then
       console_log NoArticlesFound
     else
       let totalPages := totalPages_of allArticles in
       template ← readFileSync_template e;
       for_each (seqZ 1 totalPages) (build_page e allArticles totalPages template);;
       console_log (TotalPagesBuilt totalPages))
      {| siteDir := Some (Dir [(lit "pages", Dir entries)]);
         console := [CleanedAndCreated; CopiedPages] |}.
Proof.
  intros Hp. unfold run, cpSync_pages, readdirSync_pages. rewrite Hp. reflexivity.
Qed.

(** C7.  When no name of the [pages] directory is parsed, the run removes
    what was at the output directory, creates it anew, copies [pages] into
    it, writes no page (no [index.html], no [archives]) and returns
    normally, whether or not there is a template. *)
Theorem no_articles_no_pages (e : Env) (site : option node)
    (entries : list (jsstring * node)) :
  pagesDir e = Some (Dir entries) →
  omap getArticleFromFilename entries.*1 = [] →
  run e (start site)
  = (Returned (),
     {| siteDir := Some (Dir [(lit "pages", Dir entries)]);
        console := [CleanedAndCreated; CopiedPages; NoArticlesFound] |}).
Proof.
  intros Hp Hnone. rewrite (run_reset_and_copy e site entries Hp).
  unfold allArticles_of. rewrite omap_id_fmap, Hnone. reflexivity.
Qed.

Lemma no_articles_no_pages_witness :
  let entries := [(lit "index.html", File (lit "<html></html>"));
                  (lit "notes.txt", File (lit "to do"));
                  (lit "img", Dir [(lit "a.png", File [137%N; 80%N])])] in
  let e := {| pagesDir := Some (Dir entries); templatePath := None;
              currentYear := 2024; localeCompare := caseless_compare |} in
  run e (start (Some (Dir [(lit "index.html", File (lit "old"));
                           (lit "archives", Dir [])])))
  = (Returned (),
     {| siteDir := Some (Dir [(lit "pages", Dir entries)]);
        console := [CleanedAndCreated; CopiedPages; NoArticlesFound] |}).
Proof.
  intros entries e. apply (no_articles_no_pages e _ entries); reflexivity.
Defined.

(** The sort looks at the comparator only through its values. *)
Lemma sort_insert_ext {A} (cmp cmp' : A → A → Z) (x : A) (l : list A) :
  (∀ a b, cmp a b = cmp' a b) → sort_insert cmp x l = sort_insert cmp' x l.
Proof.
  intros Hc. induction l as [|y l IH]; [done |].
  cbn [sort_insert]. by rewrite Hc, IH.
Qed.

Lemma Array_sort_ext {A} (cmp cmp' : A → A → Z) (l : list A) :
  (∀ a b, cmp a b = cmp' a b) → Array_sort cmp l = Array_sort cmp' l.
Proof.
  intros Hc. induction l as [|x l IH]; [done |].
  cbn [Array_sort foldr]. fold (Array_sort cmp l) (Array_sort cmp' l).
  by rewrite IH, (sort_insert_ext cmp cmp' _ _ Hc).
Qed.

Lemma allArticles_of_ext e e' (allFiles : list jsstring) :
  (∀ a b, localeCompare e a b = localeCompare e' a b) →
  allArticles_of e allFiles = allArticles_of e' allFiles.
Proof. intros Hc. apply Array_sort_ext. intros a b. apply Hc. Qed.

(** Two runs that read the same [pages] directory, the same template and
    the same year under the same collation end alike, whatever stood at
    the output directory before each. *)
Lemma run_same_inputs e e' (site site' : option node) :
  pagesDir e = pagesDir e' →
  templatePath e = templatePath e' →
  currentYear e = currentYear e' →
  (∀ a b, localeCompare e a b = localeCompare e' a b) →
  run e (start site) = run e' (start site').
Proof.
  intros Hp Ht Hy Hc. destruct (pagesDir e) as [[data|entries]|] eqn:Hpe.
  - unfold run, cpSync_pages, readdirSync_pages. by rewrite Hpe, <- Hp.
  - symmetry in Hp.
    rewrite (run_reset_and_copy e site entries Hpe),
            (run_reset_and_copy e' site' entries Hp).
    rewrite (allArticles_of_ext e e' _ Hc).
    unfold readFileSync_template, build_page. by rewrite Ht, Hy.
  - unfold run, cpSync_pages. by rewrite Hpe, <- Hp.
Qed.

(** C9, as the code has it.  A run is a function of what it reads -- the
    [pages] directory with its listing and contents, the template, the
    year and the collation behind [localeCompare] -- and of nothing else:
    two runs that read the same of each end with the same result, tree and
    console lines whatever stood at the output directory before, and so
    does a second run started on the tree the first one left. *)
Theorem build_deterministic (e e' : Env) (site site' : option node) :
  pagesDir e = pagesDir e' →
  templatePath e = templatePath e' →
  currentYear e = currentYear e' →
  (∀ a b, localeCompare e a b = localeCompare e' a b) →
  run e (start site) = run e' (start site')
  ∧ run e' (start (siteDir (run e (start site)).2)) = run e (start site).
Proof.
  intros Hp Ht Hy Hc. split.
  - by apply run_same_inputs.
  - symmetry. by apply run_same_inputs.
Qed.

Lemma build_deterministic_witness :
  let e' := {| pagesDir := Some (Dir sample_entries);
               templatePath := Some (File template_3);
               currentYear := 2024;
               localeCompare :=
                 λ a b, sort_compare (collation_key a) (collation_key b) |} in
  let site' := Some (Dir [(lit "index.html", File (lit "<html></html>"))]) in
  run sample_env (start None) = run e' (start site')
  ∧ run e' (start (siteDir (run sample_env (start None)).2))
    = run sample_env (start None).
Proof.
  intros e' site'. apply (build_deterministic sample_env e' None site');
    reflexivity.
Defined.

(** C9, as the specification words it, fails: the collation is an input
    too.  Two runs over the same listing, contents, template and year,
    one under a collation that ranks [a] before [B] and one under the
    order of the code units, both consistent, both returning normally,
    sort the two articles of one day in opposite orders and leave
    different trees; so does the second when it starts on the tree of the
    first. *)
Lemma collation_changes_output :
  let entries := [(lit "2024-01-01-a.html", File (lit "<p>a</p>"));
                  (lit "2024-01-01-B.html", File (lit "<p>B</p>"))] in
  let e1 := {| pagesDir := Some (Dir entries);
               templatePath := Some (File template_3);
               currentYear := 2024; localeCompare := caseless_compare |} in
  let e2 := {| pagesDir := Some (Dir entries);
               templatePath := Some (File template_3);
               currentYear := 2024; localeCompare := sort_compare |} in
  pagesDir e1 = pagesDir e2
  ∧ templatePath e1 = templatePath e2
  ∧ currentYear e1 = currentYear e2
  ∧ consistent (localeCompare e1)
  ∧ consistent (localeCompare e2)
  ∧ (run e1 (start None)).1 = Returned ()
  ∧ (run e2 (start None)).1 = Returned ()
  ∧ filename <$> allArticles_of e1 entries.*1
    = [lit "2024-01-01-B.html"; lit "2024-01-01-a.html"]
  ∧ filename <$> allArticles_of e2 entries.*1
    = [lit "2024-01-01-a.html"; lit "2024-01-01-B.html"]
  ∧ siteDir (run e1 (start None)).2 ≠ siteDir (run e2 (start None)).2
  ∧ siteDir (run e2 (start (siteDir (run e1 (start None)).2))).2
    ≠ siteDir (run e1 (start None)).2.
Proof.
  intros entries e1 e2. split_and!; try reflexivity.
  - apply caseless_compare_consistent.
  - apply sort_compare_consistent.
  - intros E. by vm_compute in E.
  - intros E. by vm_compute in E.
Qed.

(** Eleven articles: page 1 at [index.html], page 2 at
    [archives/2/index.html], beside the copy of [pages]. *)
Example run_two_pages :
  let names :=
    map (λ d, lit "2024-01-" ++ lit d ++ lit "-n.html")
        ["01"; "02"; "03"; "04"; "05"; "06"; "07"; "08"; "09"; "10"; "11"]%string in
  let e := {| pagesDir := Some (Dir (map (λ f, (f, File [])) names));
              templatePath := Some (File template_3);
              currentYear := 2024; localeCompare := caseless_compare |} in
  ∃ s,
    run e (start None) = (Returned (), s)
    ∧ console s
      = [CleanedAndCreated; CopiedPages; BuiltPage 1; BuiltPage 2; TotalPagesBuilt 2]
    ∧ file_paths <$> siteDir s
      = Some (map (λ f, [lit "pages"; f]) names
              ++ [[lit "index.html"]; [lit "archives"; lit "2"; lit "index.html"]]).
Proof.
  intros names e. eexists. split; [vm_compute; reflexivity |].
  split; by vm_compute.
Qed.

Lemma occursb_occurs (pat s : jsstring) : occursb pat s = true ↔ occurs pat s.
Proof.
  induction s as [|c s IH]; simpl.
  - rewrite orb_false_r, bool_decide_eq_true. split.
    + intros [k Hk]. by exists [], k.
    + intros (a & b & E). destruct a; [by exists b | done].
  - rewrite orb_true_iff, bool_decide_eq_true, IH. split.
    + intros [[k ->] | (a & b & ->)]; [by exists [], k | by exists (c :: a), b].
    + intros (a & b & E). destruct a as [|c' a].
      * left. exists b. exact E.
      * right. injection E as -> ->. by exists a, b.
Qed.

(** ** The template and replacement patterns

    [replace] reads its second argument as a replacement template, in which
    [$$] stands for one [$], [$&] for the placeholder itself, [$`] and [$']
    for the template before and after it.  A fragment without [$] is
    inserted as it is; but a file name may hold a [$], and so may the title
    and the path of its entry. *)

Lemma indexOf_split_spec (pat before_rev s : jsstring) :
  match indexOf_split pat before_rev s with
  | Some (x, y) =>
    ∃ b, x = rev before_rev ++ b
         ∧ s = b ++ pat ++ y
         ∧ ∀ b' a', s = b' ++ pat ++ a' → length b ≤ length b'
  | None => ¬ occurs pat s
  end.
Proof.
  revert before_rev. induction s as [|c s IH]; intros br.
  - cbn [indexOf_split].
    destruct (match_here (map Chr pat) []) as [[m rest]|] eqn:E.
    + apply match_here_literal in E as [-> E].
      exists []. rewrite app_nil_r. split_and!; [done | done |]. intros; simpl; lia.
    + apply match_here_literal_None in E. intros (a & b & Hab).
      apply E. destruct a; [| done]. by exists b.
  - cbn [indexOf_split].
    destruct (match_here (map Chr pat) (c :: s)) as [[m rest]|] eqn:E.
    + apply match_here_literal in E as [-> E].
      exists []. rewrite app_nil_r. split_and!; [done | done |]. intros; simpl; lia.
    + apply match_here_literal_None in E. specialize (IH (c :: br)).
      destruct (indexOf_split pat (c :: br) s) as [[x y]|].
      * destruct IH as (b & -> & -> & Hmin). exists (c :: b). split_and!.
        -- simpl. by rewrite <- app_assoc.
        -- done.
        -- intros [|c' b'] a' Hb.
           ++ destruct E. by exists a'.
           ++ injection Hb as <- Hb. simpl. specialize (Hmin b' a' Hb). lia.
      * intros ([|c' a] & b & Hab).
        -- apply E. by exists b.
        -- injection Hab as <- Hab. apply IH. by exists a, b.
Qed.

(** [replace] with a string to search for and a replacement without [$]:
    the first occurrence gives way to the replacement as it is. *)
Lemma String_replace_literal (s pat rep : jsstring) :
  36%N ∉ rep → ReplacedFirst pat rep s (String_replace s pat rep).
Proof.
  intros Hrep. unfold String_replace.
  pose proof (indexOf_split_spec pat [] s) as H.
  destruct (indexOf_split pat [] s) as [[x y]|].
  - destruct H as (b & -> & Hs & Hmin). right. exists b, y.
    by rewrite getSubstitution_plain.
  - by left.
Qed.

Lemma pagination_no_dollar currentPage totalPages :
  36%N ∉ generatePaginationHtml currentPage totalPages.
Proof.
  unfold generatePaginationHtml, attr. intros H.
  destruct (1 <? currentPage)%Z, (currentPage =? 2)%Z, (currentPage <? totalPages)%Z;
    absent_unit H Number_toString_units.
Qed.

(** Where the article-list fragment holds no [$], the page is the template
    with the three placeholders replaced in turn, each at its first
    occurrence in the text as it then stands, by the fragments as they
    are. *)
Lemma finalHtml_literal (template articlesHtml : jsstring) (i totalPages year : Z) :
  36%N ∉ articlesHtml →
  ∃ s1 s2,
    ReplacedFirst (lit "<!-- ARCHIVES_PLACEHOLDER -->") articlesHtml template s1
    ∧ ReplacedFirst (lit "<!-- PAGINATION_PLACEHOLDER -->")
        (generatePaginationHtml i totalPages) s1 s2
    ∧ ReplacedFirst (lit "<!-- YEAR_PLACEHOLDER -->") (Number_toString year) s2
        (finalHtml_of template articlesHtml (generatePaginationHtml i totalPages) year).
Proof.
  intros Ha. unfold finalHtml_of. eexists _, _. split_and!.
  - by apply String_replace_literal.
  - apply String_replace_literal, pagination_no_dollar.
  - apply String_replace_literal. intros H.
    apply Number_toString_units in H as [H | H]; discriminate H.
Qed.

Lemma ReplacedAll_absent_unit (pat rep s t : jsstring) c :
  c ∉ rep → ReplacedAll pat rep s t → c ∉ s → c ∉ t.
Proof.
  intros Hrep H. induction H as [| s t H IH | x s t Hp H IH]; [done | |].
  - rewrite !not_elem_of_app. intros [_ Hs]. auto.
  - rewrite !not_elem_of_cons. intros [Hx Hs]. auto.
Qed.

Lemma quote_escaped_absent_unit text c :
  c ∉ lit "&quot;" → c ∉ text → c ∉ quote_escaped text.
Proof.
  intros Hq. unfold quote_escaped.
  induction text as [|x text IH]; [done |].
  rewrite bind_cons, not_elem_of_cons, not_elem_of_app. intros [Hx Ht].
  split; [| by apply IH].
  destruct (x =? 34)%N; [done |]. by rewrite list_elem_of_singleton.
Qed.

(** The article of a name without [$] has none in its fields. *)
Lemma parse_no_dollar file a :
  getArticleFromFilename file = Some a → 36%N ∉ file →
  (36%N ∉ title a) ∧ (36%N ∉ path a) ∧ (36%N ∉ date a).
Proof.
  intros E Hf. pose proof (parse_fields _ _ E) as (_ & Hpath & _ & [k Hk]).
  split_and!.
  - destruct (parse_Some_inv _ _ E) as (d & rest & Hd & ->).
    destruct (parse_well_formed d rest Hd) as (t & (t1 & t2 & R1 & R2 & R3) & Hp).
    assert (title a = t) as -> by (rewrite Hp in E; by injection E as <-).
    rewrite !not_elem_of_app in Hf. destruct Hf as (_ & _ & Hrest & _).
    eapply ReplacedAll_absent_unit; [| exact R3 |]; [by_compute |].
    eapply ReplacedAll_absent_unit; [| exact R2 |]; [by_compute |].
    eapply ReplacedAll_absent_unit; [| exact R1 | done]. by_compute.
  - rewrite Hpath, not_elem_of_app. split; [by_compute | done].
  - rewrite Hk, not_elem_of_app in Hf. tauto.
Qed.

Lemma elem_of_concat {A} (x : A) (ls : list (list A)) :
  x ∈ concat ls ↔ ∃ l, x ∈ l ∧ l ∈ ls.
Proof.
  induction ls as [|l ls IH]; simpl.
  - split; [by intros ?%elem_of_nil | by intros (? & _ & ?%elem_of_nil)].
  - rewrite elem_of_app, IH. split.
    + intros [H | (l' & H & Hl')]; [exists l | exists l']; split; try done;
        [left | by right].
    + intros (l' & H & [-> | Hl']%elem_of_cons); [by left | right; eauto].
Qed.

Lemma fragment_no_dollar (articles : list Article) html :
  generateArticlesHtml articles = Some html →
  Forall (λ a, (36%N ∉ title a) ∧ (36%N ∉ path a) ∧ (36%N ∉ date a)) articles →
  36%N ∉ html.
Proof.
  intros Hh Hall. destruct (generateArticlesHtml_groups _ _ Hh) as (dates & -> & _ & Hd).
  rewrite Forall_forall in Hall.
  intros (g & Hg & Hin)%elem_of_concat.
  apply list_elem_of_fmap in Hin as (d & -> & Hdin).
  apply Hd in Hdin as (a0 & Ha0 & <-).
  unfold date_group, date_group_open, date_group_close, attr in Hg.
  destruct (Hall a0 Ha0) as (_ & _ & Hdate).
  repeat (apply elem_of_app in Hg as [Hg | Hg]);
    try (by apply Hdate); try (revert Hg; by_compute).
  apply elem_of_concat in Hg as (item & Hitem & Hin).
  apply list_elem_of_fmap in Hin as (a & -> & Ha).
  apply list_elem_of_filter in Ha as [_ Ha].
  destruct (Hall a Ha) as (Ht & Hp & _).
  unfold article_item, attr in Hitem. rewrite escapeHtml_quote_escaped in Hitem.
  repeat (apply elem_of_app in Hitem as [Hitem | Hitem]);
    try (by apply Ht); try (by apply Hp); try (revert Hitem; by_compute).
  revert Hitem. apply quote_escaped_absent_unit; [by_compute | done].
Qed.

(** X13.  In a run over names without [$], every page is the template with
    the three placeholders replaced in turn by the fragments as they are. *)
Lemma page_literal e allFiles (template : jsstring) (i : Z) :
  Forall (λ file, 36%N ∉ file) allFiles →
  let allArticles := allArticles_of e allFiles in
  ∃ articlesHtml s1 s2,
    generateArticlesHtml (pageArticles_of allArticles i) = Some articlesHtml
    ∧ ReplacedFirst (lit "<!-- ARCHIVES_PLACEHOLDER -->") articlesHtml template s1
    ∧ ReplacedFirst (lit "<!-- PAGINATION_PLACEHOLDER -->")
        (generatePaginationHtml i (totalPages_of allArticles)) s1 s2
    ∧ ReplacedFirst (lit "<!-- YEAR_PLACEHOLDER -->")
        (Number_toString (currentYear e)) s2
        (finalHtml_of template articlesHtml
           (generatePaginationHtml i (totalPages_of allArticles)) (currentYear e)).
Proof.
  intros Hfiles allArticles.
  destruct (generateArticlesHtml_parsed _ (pageArticles_parsed e allFiles i))
    as [articlesHtml Hh].
  assert (36%N ∉ articlesHtml) as Hd.
  { apply (fragment_no_dollar _ _ Hh). apply Forall_forall. intros a Ha.
    eapply sublist_subseteq in Ha; [| apply pageArticles_sublist].
    apply elem_of_allArticles in Ha as (file & Hfile & Hf).
    apply (parse_no_dollar file a Hf).
    rewrite Forall_forall in Hfiles. by apply Hfiles. }
  destruct (finalHtml_literal template articlesHtml i
              (totalPages_of allArticles) (currentYear e) Hd) as (s1 & s2 & H).
  by exists articlesHtml, s1, s2.
Qed.

(** C8 fails on the code.  A page built from [2024-01-01-A$$B.html] does not
    hold the article-list fragment: where the fragment has the title
    [A$$B] and the path of the file, the page has [A$B] and a path to no
    file, the fragment of another article. *)
Theorem dollar_in_title_rewritten :
  let file := lit "2024-01-01-A$$B.html" in
  let e := {| pagesDir := Some (Dir [(file, File [])]);
              templatePath := Some (File template_3);
              currentYear := 2024; localeCompare := caseless_compare |} in
  let a := {| title := lit "A$$B"; date := lit "2024-01-01";
              path := lit "pages/2024-01-01-A$$B.html"; filename := file |} in
  let a' := {| title := lit "A$B"; date := lit "2024-01-01";
               path := lit "pages/2024-01-01-A$B.html"; filename := file |} in
  allArticles_of e [file] = [a]
  ∧ generateArticlesHtml [a] = Some (date_group (lit "2024-01-01") [a])
  ∧ run e (start None)
    = (Returned (),
       {| siteDir :=
            Some (Dir [(lit "pages", Dir [(file, File [])]);
                       (lit "index.html",
                        File (lit "<main>" ++ date_group (lit "2024-01-01") [a']
                              ++ lit "</main><nav>" ++ generatePaginationHtml 1 1
                              ++ lit "</nav><footer>2024</footer>"))]);
          console := [CleanedAndCreated; CopiedPages; BuiltPage 1;
                      TotalPagesBuilt 1] |})
  ∧ date_group (lit "2024-01-01") [a'] ≠ date_group (lit "2024-01-01") [a]
  ∧ finalHtml_of template_3 (date_group (lit "2024-01-01") [a])
      (generatePaginationHtml 1 1) 2024
    ≠ lit "<main>" ++ date_group (lit "2024-01-01") [a]
      ++ lit "</main><nav>" ++ generatePaginationHtml 1 1
      ++ lit "</nav><footer>2024</footer>".
Proof.
  intros file e a a'. split_and!; [by vm_compute | by vm_compute | by vm_compute | |].
  - intros E. by vm_compute in E.
  - intros E. by vm_compute in E.
Qed.

(** A second way past C8: a fragment that holds the text of a later
    placeholder takes the later replacement, and the placeholder of the
    template stays in the page. *)
Example placeholder_in_title_taken :
  let file := lit "2024-01-01-<!-- PAGINATION_PLACEHOLDER -->.html" in
  let e := {| pagesDir := Some (Dir [(file, File [])]);
              templatePath := Some (File template_3);
              currentYear := 2024; localeCompare := caseless_compare |} in
  ∃ page,
    siteDir (run e (start None)).2
    = Some (Dir [(lit "pages", Dir [(file, File [])]); (lit "index.html", File page)])
    ∧ occurs (lit "<nav><!-- PAGINATION_PLACEHOLDER --></nav>") page
    ∧ occurs (lit "<a href=" ++ dq ++ lit "/pages/2024-01-01-" ++ generatePaginationHtml 1 1)
             page.
Proof.
  intros file e.
  eexists. split; [vm_compute; reflexivity |].
  split; apply occursb_occurs; by vm_compute.
Qed.

(** * Further properties of the build *)

(** ** Pages as a partition of the sorted list *)

Lemma chunks_take (l : list Article) (k : nat) :
  concat (map (λ j, take 10 (drop (10 * j) l)) (seq 0 k)) = take (10 * k) l.
Proof.
  induction k as [|k IH]; [done |].
  rewrite seq_S, map_app, concat_app, IH. simpl. rewrite app_nil_r.
  rewrite take_take_drop. f_equal. lia.
Qed.

(** X1.  The pages, taken in order from 1 to [totalPages], put end to end
    are the sorted list: every article is on one page, once, and in its
    place. *)
Theorem pages_partition (allArticles : list Article) :
  concat (map (pageArticles_of allArticles) (seqZ 1 (totalPages_of allArticles)))
  = allArticles.
Proof.
  pose proof (totalPages_bounds allArticles) as Hb.
  unfold seqZ. rewrite <- list_fmap_compose.
  trans (take (10 * Z.to_nat (totalPages_of allArticles)) allArticles);
    [| apply take_ge; lia].
  rewrite <- chunks_take. f_equal. apply list_fmap_ext. intros _ j _. simpl.
  rewrite pageArticles_take_drop by lia. do 2 f_equal. lia.
Qed.

(** ** Order across pages *)

Lemma elem_of_pageArticles_take (allArticles : list Article) (i : Z) a :
  (1 ≤ i)%Z →
  a ∈ pageArticles_of allArticles i → a ∈ take (10 * Z.to_nat i) allArticles.
Proof.
  intros Hi Ha. rewrite pageArticles_take_drop in Ha by done.
  replace (10 * Z.to_nat i) with (10 * Z.to_nat (i - 1) + 10) by lia.
  rewrite <- take_take_drop. apply elem_of_app. by right.
Qed.

Lemma elem_of_pageArticles_drop (allArticles : list Article) (i j : Z) b :
  (1 ≤ i < j)%Z →
  b ∈ pageArticles_of allArticles j → b ∈ drop (10 * Z.to_nat i) allArticles.
Proof.
  intros Hij Hb. rewrite pageArticles_take_drop in Hb by lia.
  apply subseteq_take in Hb.
  replace (10 * Z.to_nat (j - 1)) with (10 * Z.to_nat i + 10 * Z.to_nat (j - 1 - i))
    in Hb by lia.
  rewrite <- drop_drop in Hb. by apply subseteq_drop in Hb.
Qed.

(** X2.  Sorting and slicing together: an article of an earlier page never
    ranks below an article of a later page in the comparison of the sort,
    so the pages run from the names that rank highest to those that rank
    lowest. *)
Theorem earlier_pages_first (e : Env) (allFiles : list jsstring) (i j : Z)
    (a b : Article) :
  consistent (localeCompare e) →
  (1 ≤ i < j)%Z →
  a ∈ pageArticles_of (allArticles_of e allFiles) i →
  b ∈ pageArticles_of (allArticles_of e allFiles) j →
  (localeCompare e (filename b) (filename a) ≤ 0)%Z.
Proof.
  intros He Hij Ha Hb.
  pose proof (Array_sort_StronglySorted
                (λ a b, localeCompare e (filename b) (filename a))
                (consistent_on (λ x y, localeCompare e y x) filename
                   (consistent_flip _ He))
                (Array_filter_Boolean (map getArticleFromFilename allFiles))) as Hs.
  fold (allArticles_of e allFiles) in Hs.
  rewrite <- (take_drop (10 * Z.to_nat i) (allArticles_of e allFiles)) in Hs.
  eapply (StronglySorted_app_1_elem_of _ _ _ a b) in Hs; [done | |].
  - apply elem_of_pageArticles_take; [lia | done].
  - by apply (elem_of_pageArticles_drop _ i j).
Qed.

Lemma earlier_pages_first_witness :
  (caseless_compare (filename (sample_article "01"))
                    (filename (sample_article "11")) ≤ 0)%Z.
Proof.
  apply (earlier_pages_first sample_env sample_names 1 2
           (sample_article "11") (sample_article "01")).
  - apply caseless_compare_consistent.
  - lia.
  - apply (list_elem_of_lookup_2 _ 0). by vm_compute.
  - apply (list_elem_of_lookup_2 _ 0). by vm_compute.
Defined.

(** ** Page numbers as text *)

Lemma uint_units_inj u v : uint_units u = uint_units v → u = v.
Proof.
  revert v. induction u; intros [] H; simpl in H; try discriminate H;
    try reflexivity; f_equal; apply IHu; congruence.
Qed.

Lemma uint_units_head u c s : uint_units u = c :: s → is_digit c = true.
Proof. intros H. apply (uint_units_digits u). rewrite H. by left. Qed.

Lemma to_uint_not_zero p : Pos.to_uint p ≠ Decimal.D0 Decimal.Nil.
Proof.
  intros H. pose proof (DecimalPos.Unsigned.of_to p) as Hp.
  rewrite H in Hp. discriminate Hp.
Qed.

(** Two integers with the same decimal text are the same integer. *)
Lemma Number_toString_inj i j : Number_toString i = Number_toString j → i = j.
Proof.
  destruct i as [|p|p], j as [|q|q]; unfold Number_toString;
    change (lit "0") with [48%N]; change (lit "-") with [45%N]; simpl;
    intros H; try reflexivity.
  - symmetry in H. apply (uint_units_inj _ (Decimal.D0 Decimal.Nil)) in H.
    by apply to_uint_not_zero in H.
  - discriminate H.
  - apply (uint_units_inj _ (Decimal.D0 Decimal.Nil)) in H.
    by apply to_uint_not_zero in H.
  - apply uint_units_inj, DecimalPos.Unsigned.to_uint_inj in H. by subst.
  - by apply uint_units_head in H.
  - discriminate H.
  - symmetry in H. by apply uint_units_head in H.
  - injection H as H. apply uint_units_inj, DecimalPos.Unsigned.to_uint_inj in H.
    by subst.
Qed.

(** ** Entries of a directory *)

Lemma set_entry_None name n es :
  lookup_entry name es = None → set_entry name n es = es ++ [(name, n)].
Proof.
  induction es as [|[k v] es IH]; simpl; [done |].
  case_bool_decide; [done |]. intros Hn. by rewrite IH.
Qed.

Lemma lookup_entry_snoc name n es :
  lookup_entry name es = None → lookup_entry name (es ++ [(name, n)]) = Some n.
Proof.
  induction es as [|[k v] es IH]; simpl.
  - by rewrite bool_decide_eq_true_2.
  - case_bool_decide; [done | apply IH].
Qed.

Lemma set_entry_snoc name n n' es :
  lookup_entry name es = None →
  set_entry name n' (es ++ [(name, n)]) = es ++ [(name, n')].
Proof.
  induction es as [|[k v] es IH]; simpl.
  - by rewrite bool_decide_eq_true_2.
  - case_bool_decide; [done |]. intros Hn. by rewrite IH.
Qed.

Lemma archive_entries_snoc i pages page :
  archive_entries i (pages ++ [page])
  = archive_entries i pages
    ++ [(Number_toString (i + Z.of_nat (length pages)),
         Dir [(lit "index.html", File page)])].
Proof.
  revert i. induction pages as [|p pages IH]; intros i; simpl.
  - by rewrite Z.add_0_r.
  - rewrite IH. do 3 f_equal. f_equal. f_equal. lia.
Qed.

Lemma lookup_archive_entries_None i j pages :
  (j < i ∨ i + Z.of_nat (length pages) ≤ j)%Z →
  lookup_entry (Number_toString j) (archive_entries i pages) = None.
Proof.
  revert i. induction pages as [|p pages IH]; intros i Hj; [done |].
  cbn [archive_entries lookup_entry]. cbn [length] in Hj.
  rewrite bool_decide_eq_false_2; [apply IH; lia |].
  intros H%Number_toString_inj. lia.
Qed.

(** ** One page of the loop *)

Lemma root_lookup_archives entries first (archives : node) :
  lookup_entry (lit "archives")
    [(lit "pages", Dir entries); (lit "index.html", File first);
     (lit "archives", archives)]
  = Some archives.
Proof. reflexivity. Qed.

Lemma root_set_archives entries first (archives archives' : node) :
  set_entry (lit "archives") archives'
    [(lit "pages", Dir entries); (lit "index.html", File first);
     (lit "archives", archives)]
  = [(lit "pages", Dir entries); (lit "index.html", File first);
     (lit "archives", archives')].
Proof. reflexivity. Qed.

(** The directory of page [i] is made and its [index.html] written, next
    to what the pages before it left. *)
Lemma build_page_tree entries (htmls : list jsstring) (html : jsstring) :
  let pageOutputDir := pageOutputDir_of (Z.of_nat (length htmls) + 1) in
  ∃ t,
    mkdirp pageOutputDir (site_tree entries htmls) = Some t
    ∧ writeFile pageOutputDir (lit "index.html") html t
      = Some (site_tree entries (htmls ++ [html])).
Proof.
  destruct htmls as [|first [|second rest]].
  - eexists. split; reflexivity.
  - eexists. split; reflexivity.
  - intros pageOutputDir. subst pageOutputDir.
    set (i := (Z.of_nat (length (first :: second :: rest)) + 1)%Z).
    assert (3 ≤ i)%Z as Hi by (unfold i; cbn [length]; lia).
    unfold pageOutputDir_of. rewrite (proj2 (Z.eqb_neq i 1)) by lia.
    change (site_tree entries (first :: second :: rest))
      with (Dir [(lit "pages", Dir entries); (lit "index.html", File first);
                 (lit "archives", Dir (archive_entries 2 (second :: rest)))]).
    change ((first :: second :: rest) ++ [html])
      with (first :: (second :: rest) ++ [html]).
    change (site_tree entries (first :: (second :: rest) ++ [html]))
      with (Dir [(lit "pages", Dir entries); (lit "index.html", File first);
                 (lit "archives",
                  Dir (archive_entries 2 ((second :: rest) ++ [html])))]).
    rewrite archive_entries_snoc.
    replace (2 + Z.of_nat (length (second :: rest)))%Z with i
      by (unfold i; cbn [length]; lia).
    assert (lookup_entry (Number_toString i) (archive_entries 2 (second :: rest))
            = None) as Hnone.
    { apply lookup_archive_entries_None. right. unfold i. cbn [length]. lia. }
    generalize dependent (archive_entries 2 (second :: rest)). intros A Hnone.
    eexists. split.
    + cbn [mkdirp]. rewrite root_lookup_archives. cbn [default from_option id mkdirp].
      rewrite Hnone. cbn [default from_option id mbind option_bind].
      rewrite (set_entry_None _ _ _ Hnone), root_set_archives. reflexivity.
    + cbn [writeFile]. rewrite root_lookup_archives. cbn [mbind option_bind].
      rewrite (lookup_entry_snoc _ _ _ Hnone). cbn [mbind option_bind].
      change (lookup_entry (lit "index.html") []) with (@None node).
      change (set_entry (lit "index.html") (File html) [])
        with [(lit "index.html", File html)].
      cbn [mbind option_bind].
      rewrite (set_entry_snoc _ _ _ _ Hnone), root_set_archives. reflexivity.
Qed.

Lemma page_of_parsed e allFiles template i :
  is_Some (page_of e (allArticles_of e allFiles) template i).
Proof.
  unfold page_of.
  destruct (generateArticlesHtml_parsed _ (pageArticles_parsed e allFiles i))
    as [articlesHtml ->].
  by eexists.
Qed.

Lemma build_page_run e allArticles template entries htmls html c :
  page_of e allArticles template (Z.of_nat (length htmls) + 1) = Some html →
  build_page e allArticles (totalPages_of allArticles) template
    (Z.of_nat (length htmls) + 1)
    {| siteDir := Some (site_tree entries htmls); console := c |}
  = (Returned (),
     {| siteDir := Some (site_tree entries (htmls ++ [html]));
        console := c ++ [BuiltPage (Z.of_nat (length htmls) + 1)] |}).
Proof.
  unfold page_of. intros Hp.
  destruct (generateArticlesHtml _) as [articlesHtml|] eqn:Ha; [| done].
  injection Hp as <-.
  destruct (build_page_tree entries htmls
              (finalHtml_of template articlesHtml
                 (generatePaginationHtml (Z.of_nat (length htmls) + 1)
                    (totalPages_of allArticles)) (currentYear e)))
    as (t & Hm & Hw).
  unfold build_page. rewrite Ha.
  unfold mkdirSync, writeFileSync, get_site, put_site, console_log, mbind, M_bind.
  cbn [or_throw mret M_ret siteDir console default from_option id].
  rewrite Hm. cbn [or_throw mret M_ret siteDir console mbind option_bind].
  rewrite Hw. reflexivity.
Qed.

Lemma for_each_pages e allFiles template entries (m : nat) :
  ∀ (htmls : list jsstring) (c : list message),
    let allArticles := allArticles_of e allFiles in
    let first := (Z.of_nat (length htmls) + 1)%Z in
    ∃ more,
      Forall2 (λ i html, page_of e allArticles template i = Some html)
              (seqZ first (Z.of_nat m)) more
      ∧ for_each (seqZ first (Z.of_nat m))
          (build_page e allArticles (totalPages_of allArticles) template)
          {| siteDir := Some (site_tree entries htmls); console := c |}
        = (Returned (),
           {| siteDir := Some (site_tree entries (htmls ++ more));
              console := c ++ (BuiltPage <$> seqZ first (Z.of_nat m)) |}).
Proof.
  induction m as [|m IH]; intros htmls c allArticles first.
  - exists []. split; [constructor |]. simpl. by rewrite !app_nil_r.
  - rewrite seqZ_cons by lia.
    destruct (page_of_parsed e allFiles template first) as [html Hp].
    destruct (IH (htmls ++ [html]) (c ++ [BuiltPage first]))
      as (more & Hmore & Hrun).
    replace (Z.of_nat (length (htmls ++ [html])) + 1)%Z with (Z.succ first)
      in Hmore, Hrun by (rewrite length_app; unfold first; simpl; lia).
    replace (Z.pred (Z.of_nat (S m))) with (Z.of_nat m) by lia.
    exists (html :: more). split; [by constructor |].
    cbn [for_each]. unfold mbind at 1, M_bind at 1.
    unfold allArticles, first.
    rewrite (build_page_run _ _ _ _ _ html) by done.
    cbv beta iota. fold first. rewrite Hrun.
    by rewrite fmap_cons, <- !app_assoc.
Qed.

(** The run with articles and a template: the loop from the tree of the
    copy. *)
Lemma run_normal (e : Env) (site : option node)
    (entries : list (jsstring * node)) (template : jsstring) :
  pagesDir e = Some (Dir entries) →
  templatePath e = Some (File template) →
  allArticles_of e entries.*1 ≠ [] →
  let allArticles := allArticles_of e entries.*1 in
  let totalPages := totalPages_of allArticles in
  ∃ htmls : list jsstring,
    Forall2 (λ i html, page_of e allArticles template i = Some html)
            (seqZ 1 totalPages) htmls
    ∧ run e (start site)
      = (Returned (),
         {| siteDir := Some (site_tree entries htmls);
            console := [CleanedAndCreated; CopiedPages]
                       ++ (BuiltPage <$> seqZ 1 totalPages)
                       ++ [TotalPagesBuilt totalPages] |}).
Proof.
  intros Hp Ht Hne allArticles totalPages.
  pose proof (totalPages_bounds allArticles) as Hb. fold totalPages in Hb.
  destruct (for_each_pages e entries.*1 template entries (Z.to_nat totalPages)
              [] [CleanedAndCreated; CopiedPages]) as (htmls & Hh & Hrun).
  cbv zeta in Hh, Hrun. fold allArticles totalPages in Hh, Hrun.
  rewrite Z2Nat.id in Hh, Hrun by lia.
  change (Z.of_nat (length (@nil jsstring)) + 1)%Z with 1%Z in Hh, Hrun.
  change (site_tree entries []) with (Dir [(lit "pages", Dir entries)]) in Hrun.
  exists htmls. split; [done |].
  rewrite (run_reset_and_copy e site entries Hp). fold allArticles.
  cbv zeta. fold totalPages.
  rewrite bool_decide_eq_false_2 by (by intros Hl%nil_length_inv).
  unfold readFileSync_template. rewrite Ht.
  unfold mbind at 1, M_bind at 1. cbn [mret M_ret].
  unfold mbind at 1, M_bind at 1.
  rewrite Hrun. reflexivity.
Qed.

(** X3.  A run over a [pages] directory with at least one article and a
    readable template returns normally and leaves exactly this tree: the
    copy of [pages], page 1 as [index.html], page [i] from 2 to
    [totalPages] as [archives/i/index.html] (no [archives] when there is
    one page), each page being the template with the fragments of its
    articles, its pagination and the year; the console has one line for
    each page, in order, between the lines of the copy and the total. *)
Theorem run_builds_site (e : Env) (site : option node)
    (entries : list (jsstring * node)) (template : jsstring) :
  pagesDir e = Some (Dir entries) →
  templatePath e = Some (File template) →
  allArticles_of e entries.*1 ≠ [] →
  let allArticles := allArticles_of e entries.*1 in
  let totalPages := totalPages_of allArticles in
  ∃ htmls : list jsstring,
    Forall2 (λ i html, page_of e allArticles template i = Some html)
            (seqZ 1 totalPages) htmls
    ∧ run e (start site)
      = (Returned (),
         {| siteDir := Some (site_tree entries htmls);
            console := [CleanedAndCreated; CopiedPages]
                       ++ (BuiltPage <$> seqZ 1 totalPages)
                       ++ [TotalPagesBuilt totalPages] |}).
Proof. apply run_normal. Qed.

Lemma run_builds_site_witness :
  let allArticles := allArticles_of sample_env sample_entries.*1 in
  ∃ htmls : list jsstring,
    Forall2 (λ i html, page_of sample_env allArticles template_3 i = Some html)
            (seqZ 1 2) htmls
    ∧ run sample_env (start None)
      = (Returned (),
         {| siteDir := Some (site_tree sample_entries htmls);
            console := [CleanedAndCreated; CopiedPages; BuiltPage 1; BuiltPage 2;
                        TotalPagesBuilt 2] |}).
Proof.
  apply (run_builds_site sample_env None sample_entries template_3).
  - reflexivity.
  - reflexivity.
  - intros H. by vm_compute in H.
Defined.

(** ** Failed runs *)

Lemma run_no_pages e site :
  pagesDir e = None →
  run e (start site)
  = (Thrown, {| siteDir := Some (Dir []); console := [CleanedAndCreated] |}).
Proof. intros Hp. unfold run, cpSync_pages. rewrite Hp. reflexivity. Qed.

Lemma run_pages_file e site data :
  pagesDir e = Some (File data) →
  run e (start site)
  = (Thrown, {| siteDir := Some (Dir [(lit "pages", File data)]);
                console := [CleanedAndCreated; CopiedPages] |}).
Proof.
  intros Hp. unfold run, cpSync_pages, readdirSync_pages. rewrite Hp. reflexivity.
Qed.

Lemma run_no_template e site entries :
  pagesDir e = Some (Dir entries) →
  allArticles_of e entries.*1 ≠ [] →
  (∀ template, templatePath e ≠ Some (File template)) →
  run e (start site)
  = (Thrown, {| siteDir := Some (Dir [(lit "pages", Dir entries)]);
                console := [CleanedAndCreated; CopiedPages] |}).
Proof.
  intros Hp Hne Ht. rewrite (run_reset_and_copy e site entries Hp). cbv zeta.
  rewrite bool_decide_eq_false_2 by (by intros Hl%nil_length_inv).
  unfold readFileSync_template.
  destruct (templatePath e) as [[template|]|]; [by destruct (Ht template) | |];
    reflexivity.
Qed.

Lemma run_no_articles e site entries :
  pagesDir e = Some (Dir entries) →
  allArticles_of e entries.*1 = [] →
  run e (start site)
  = (Returned (),
     {| siteDir := Some (Dir [(lit "pages", Dir entries)]);
        console := [CleanedAndCreated; CopiedPages; NoArticlesFound] |}).
Proof.
  intros Hp Hnil. rewrite (run_reset_and_copy e site entries Hp). cbv zeta.
  rewrite Hnil. reflexivity.
Qed.

(** X4.  The run returns normally exactly when [pages] is a directory and
    either no name in it is an article or the template is a readable
    file; otherwise it throws. *)
Theorem run_returns_iff (e : Env) (site : option node) :
  (run e (start site)).1 = Returned ()
  ↔ ∃ entries,
      pagesDir e = Some (Dir entries)
      ∧ (omap getArticleFromFilename entries.*1 = []
         ∨ ∃ template, templatePath e = Some (File template)).
Proof.
  assert (∀ entries : list (jsstring * node),
            allArticles_of e entries.*1 = []
            ↔ omap getArticleFromFilename entries.*1 = []) as Hnil.
  { intros entries. unfold allArticles_of. rewrite omap_id_fmap. split.
    - intros H. apply nil_length_inv.
      erewrite <- length_Array_sort. by rewrite H.
    - by intros ->. }
  split.
  - destruct (pagesDir e) as [[data|entries]|] eqn:Hp.
    + by rewrite (run_pages_file e site data Hp).
    + intros Hr. exists entries. split; [done |].
      destruct (omap getArticleFromFilename entries.*1) as [|a l] eqn:Hne;
        [by left | right].
      assert (allArticles_of e entries.*1 ≠ []) as Hall
        by (intros Hall%Hnil; by rewrite Hne in Hall).
      destruct (templatePath e) as [[template|]|] eqn:Ht; [by eexists | |];
        by rewrite (run_no_template e site entries Hp Hall) in Hr
          by (by rewrite Ht).
    + by rewrite (run_no_pages e site Hp).
  - intros (entries & Hp & [Hnone | [template Ht]]).
    + by rewrite (run_no_articles e site entries Hp) by by apply Hnil.
    + destruct (omap getArticleFromFilename entries.*1) as [|a l] eqn:Hne.
      * by rewrite (run_no_articles e site entries Hp) by by apply Hnil.
      * destruct (run_normal e site entries template Hp Ht) as (htmls & _ & ->);
          [intros Hall%Hnil; by rewrite Hne in Hall | done].
Qed.

(** X5.  A run that throws has written no page: the earlier output is
    gone, and the output directory is empty (no [pages] to copy) or holds
    only the copy of [pages]; the console has the line of the cleaning and,
    when the copy was made, the line of the copy. *)
Theorem run_thrown_state (e : Env) (site : option node) :
  (run e (start site)).1 = Thrown →
  (run e (start site)).2
  = {| siteDir :=
         Some (Dir match pagesDir e with
                   | None => []
                   | Some src => [(lit "pages", src)]
                   end);
       console :=
         CleanedAndCreated
         :: match pagesDir e with None => [] | Some _ => [CopiedPages] end |}.
Proof.
  destruct (pagesDir e) as [[data|entries]|] eqn:Hp.
  - by rewrite (run_pages_file e site data Hp).
  - destruct (allArticles_of e entries.*1) as [|a l] eqn:Hall.
    { by rewrite (run_no_articles e site entries Hp Hall). }
    assert (allArticles_of e entries.*1 ≠ []) as Hne by by rewrite Hall.
    destruct (templatePath e) as [[template|]|] eqn:Ht.
    + destruct (run_normal e site entries template Hp Ht Hne) as (htmls & _ & ->).
      done.
    + by rewrite (run_no_template e site entries Hp Hne) by by rewrite Ht.
    + by rewrite (run_no_template e site entries Hp Hne) by by rewrite Ht.
  - by rewrite (run_no_pages e site Hp).
Qed.

Lemma run_thrown_state_witness :
  let e := {| pagesDir := None; templatePath := Some (File template_3);
              currentYear := 2024; localeCompare := caseless_compare |} in
  let site := Some (Dir [(lit "index.html", File (lit "<html></html>"))]) in
  (run e (start site)).2
  = {| siteDir := Some (Dir []); console := [CleanedAndCreated] |}.
Proof.
  intros e site. apply (run_thrown_state e site). reflexivity.
Defined.

(** ** Titles hold no pattern of the decoding *)

Lemma occurs_cons (q : jsstring) x (s : jsstring) :
  occurs q (x :: s) ↔ q `prefix_of` x :: s ∨ occurs q s.
Proof.
  rewrite <- !occursb_occurs. simpl.
  by rewrite orb_true_iff, bool_decide_eq_true.
Qed.

Section one_unit_replacement.
Context (pat : jsstring) (c : N).

(** Where a pattern is replaced by one unit, a text without that unit
    which starts the result starts the source. *)
Lemma ReplacedAll_prefix (q s t : jsstring) :
  ReplacedAll pat [c] s t → c ∉ q → q `prefix_of` t → q `prefix_of` s.
Proof.
  intros H. revert q. induction H as [|s t _ _|x s t Hx _ IH]; intros q Hc Hq.
  - done.
  - destruct q as [|y q]; [apply prefix_nil |].
    apply prefix_cons_inv_1 in Hq as ->. exfalso. apply Hc. by left.
  - destruct q as [|y q]; [apply prefix_nil |].
    pose proof (prefix_cons_inv_1 _ _ _ _ Hq) as ->.
    apply prefix_cons, IH; [| by apply prefix_cons_inv_2 in Hq].
    intros Hin. apply Hc. by right.
Qed.

(** Such a text occurs in the result only where it occurs in the source. *)
Lemma ReplacedAll_occurs (q s t : jsstring) :
  ReplacedAll pat [c] s t → c ∉ q → occurs q t → occurs q s.
Proof.
  intros H Hc. induction H as [|s t _ IH|x s t Hx H IH]; [done | |].
  - change ([c] ++ t) with (c :: t). rewrite occurs_cons. intros [Hq | Hq].
    + destruct q as [|y q]; [by exists [], (pat ++ s) |].
      apply prefix_cons_inv_1 in Hq as ->. exfalso. apply Hc. by left.
    + by apply occurs_app_r, IH.
  - rewrite !occurs_cons. intros [Hq | Hq]; [left | right; by apply IH].
    apply (ReplacedAll_prefix q (x :: s) (x :: t)); [| done..].
    by constructor.
Qed.

(** The result holds no occurrence of the pattern. *)
Lemma ReplacedAll_gone (s t : jsstring) :
  ReplacedAll pat [c] s t → pat ≠ [] → c ∉ pat → ¬ occurs pat t.
Proof.
  intros H Hne Hc. induction H as [|s t _ IH|x s t Hx H IH].
  - intros (a & b & E). symmetry in E.
    apply app_eq_nil in E as [_ [E _]%app_eq_nil]. done.
  - change ([c] ++ t) with (c :: t). rewrite occurs_cons. intros [Hq | Hq]; [| done].
    destruct pat as [|y q]; [done |].
    apply prefix_cons_inv_1 in Hq as ->. apply Hc. by left.
  - rewrite occurs_cons. intros [Hq | Hq]; [| done].
    apply Hx. apply (ReplacedAll_prefix pat (x :: s) (x :: t)); [| done..].
    by constructor.
Qed.

End one_unit_replacement.

Lemma ReplacedAll_absent_id (pat rep s : jsstring) :
  ¬ occurs pat s → ReplacedAll pat rep s s.
Proof.
  induction s as [|x s IH]; intros Hn; [constructor |].
  rewrite occurs_cons in Hn. constructor; [tauto | apply IH; tauto].
Qed.

Lemma Decoded_gone rest t :
  Decoded rest t →
  ¬ occurs (lit "%20") t ∧ ¬ occurs (lit "%E2%80%94") t
  ∧ ¬ occurs (lit "%EF%BC%9A") t.
Proof.
  intros (t1 & t2 & H1 & H2 & H3).
  change (lit " ") with [32%N] in H1. change (lit "—") with [8212%N] in H2.
  change (lit "：") with [65306%N] in H3.
  pose proof (ReplacedAll_gone _ _ _ _ H1) as G1.
  pose proof (ReplacedAll_gone _ _ _ _ H2) as G2.
  pose proof (ReplacedAll_gone _ _ _ _ H3) as G3.
  split_and!.
  - intros Ho. apply G1; [done | by_compute |].
    apply (ReplacedAll_occurs _ _ _ _ _ H2); [by_compute |].
    apply (ReplacedAll_occurs _ _ _ _ _ H3); [by_compute | done].
  - intros Ho. apply G2; [done | by_compute |].
    apply (ReplacedAll_occurs _ _ _ _ _ H3); [by_compute | done].
  - apply G3; [done | by_compute].
Qed.

(** X6.  The title of a parsed name holds none of the three escapes the
    parser decodes: a later replacement never puts an earlier pattern
    back, so the decoding is complete and decoding a title again leaves it
    as it is. *)
Theorem title_fully_decoded (file : jsstring) (a : Article) :
  getArticleFromFilename file = Some a →
  ¬ occurs (lit "%20") (title a)
  ∧ ¬ occurs (lit "%E2%80%94") (title a)
  ∧ ¬ occurs (lit "%EF%BC%9A") (title a)
  ∧ Decoded (title a) (title a).
Proof.
  intros Hf.
  destruct (parse_Some_inv _ _ Hf) as (d & rest & Hd & ->).
  destruct (parse_well_formed d rest Hd) as (t & Ht & Hp).
  rewrite Hp in Hf. injection Hf as <-. cbn [title].
  destruct (Decoded_gone _ _ Ht) as (G1 & G2 & G3). split_and!; try done.
  exists t, t. split_and!; apply ReplacedAll_absent_id; done.
Qed.

Lemma title_fully_decoded_witness :
  ¬ occurs (lit "%20") (lit "A B：C")
  ∧ ¬ occurs (lit "%E2%80%94") (lit "A B：C")
  ∧ ¬ occurs (lit "%EF%BC%9A") (lit "A B：C")
  ∧ Decoded (lit "A B：C") (lit "A B：C").
Proof.
  apply (title_fully_decoded (lit "2024-03-05-A%20B%EF%BC%9AC.html")
           {| title := lit "A B：C"; date := lit "2024-03-05";
              path := lit "pages/2024-03-05-A%20B%EF%BC%9AC.html";
              filename := lit "2024-03-05-A%20B%EF%BC%9AC.html" |}).
  by vm_compute.
Defined.

(** ** Groups of a fragment *)

Lemma of_date_cons d a articles :
  of_date d (a :: articles)
  = if decide (date a = d) then a :: of_date d articles else of_date d articles.
Proof. unfold of_date. by rewrite filter_cons. Qed.

Lemma of_date_other a articles (dates : list jsstring) :
  date a ∉ dates →
  map (λ d, of_date d (a :: articles)) dates = map (λ d, of_date d articles) dates.
Proof.
  intros Hn. apply map_ext_in. intros d Hd%list_elem_of_In.
  rewrite of_date_cons. case_decide; [by subst | done].
Qed.

(** The groups of distinct dates that cover the dates of the articles hold
    every article once. *)
Lemma groups_Permutation articles (dates : list jsstring) :
  NoDup dates →
  Forall (λ a, date a ∈ dates) articles →
  concat (map (λ d, of_date d articles) dates) ≡ₚ articles.
Proof.
  intros Hnd. induction articles as [|a articles IH]; intros Hall.
  - clear Hnd Hall. induction dates as [|d dates IHd]; [done | exact IHd].
  - apply Forall_cons in Hall as [Ha Hall].
    etrans; [| apply Permutation_skip, (IH Hall)].
    clear IH Hall. induction Hnd as [|d dates Hd Hnd IHd]; [by apply elem_of_nil in Ha |].
    cbn [map concat]. rewrite of_date_cons. case_decide as Hda.
    + subst d. by rewrite (of_date_other _ _ _ Hd).
    + apply elem_of_cons in Ha as [? | Ha]; [done |].
      rewrite (IHd Ha). by rewrite Permutation_middle.
Qed.

Lemma StronglySorted_Gt_NoDup (dates : list jsstring) :
  StronglySorted (λ d1 d2, str_compare d1 d2 = Gt) dates → NoDup dates.
Proof.
  induction 1 as [|d dates _ IH Hd]; constructor; [| done].
  intros Hin. rewrite Forall_forall in Hd. specialize (Hd d Hin).
  by rewrite (proj2 (str_compare_Eq d d)) in Hd.
Qed.

(** X7.  The fragment of a list of articles is made of one group for
    each date, and the groups together hold every article of the list
    once: no entry is lost and none is repeated. *)
Theorem groups_partition (articles : list Article) (html : jsstring) :
  generateArticlesHtml articles = Some html →
  ∃ dates,
    html = concat (map (λ d, date_group d (of_date d articles)) dates)
    ∧ NoDup dates
    ∧ concat (map (λ d, of_date d articles) dates) ≡ₚ articles
    ∧ Forall (λ d, of_date d articles ≠ []) dates.
Proof.
  intros (dates & Hhtml & Hs & Hd)%generateArticlesHtml_groups.
  exists dates. pose proof (StronglySorted_Gt_NoDup _ Hs) as Hnd.
  split_and!; try done.
  - apply groups_Permutation; [done |]. apply Forall_forall. intros a Ha.
    apply Hd. by exists a.
  - apply Forall_forall. intros d Hin%Hd. by apply of_date_nil_iff.
Qed.

Lemma groups_partition_witness :
  let articles := [sample_article "02"; sample_article "01"; sample_article "02"] in
  ∃ dates,
    date_group (lit "2024-01-02") [sample_article "02"; sample_article "02"]
    ++ date_group (lit "2024-01-01") [sample_article "01"]
    = concat (map (λ d, date_group d (of_date d articles)) dates)
    ∧ NoDup dates
    ∧ concat (map (λ d, of_date d articles) dates) ≡ₚ articles
    ∧ Forall (λ d, of_date d articles ≠ []) dates.
Proof.
  intros articles. apply (groups_partition articles). by vm_compute.
Defined.

(** X8.  The fragment cannot be made exactly when some article has for
    its date the name of a property every object inherits
    ([constructor], [toString], ...): the entry found under that name is
    not a list, and [push] on it throws. *)
Theorem generateArticlesHtml_None_iff (articles : list Article) :
  generateArticlesHtml articles = None
  ↔ Exists (λ a, date a ∈ Object_prototype_keys) articles.
Proof.
  split.
  - intros Hn.
    destruct (decide (Exists (λ a, date a ∈ Object_prototype_keys) articles))
      as [| Hall%not_Exists_Forall]; [done | | apply _].
    destruct (generateArticlesHtml_Some articles) as [html Hh]; [| congruence].
    eapply Forall_impl; [exact Hall |]. done.
  - intros Hex. unfold generateArticlesHtml.
    enough (∀ g, group_articles g articles = None) as -> by done.
    induction Hex as [a articles Ha | a articles _ IH]; intros g;
      cbn [group_articles]; unfold group_step.
    + by rewrite bool_decide_eq_true_2.
    + case_bool_decide; [done |]. cbn [mbind option_bind]. apply IH.
Qed.

(** An article dated [constructor]: no fragment. *)
Example generateArticlesHtml_constructor :
  generateArticlesHtml
    [{| title := lit "n"; date := lit "constructor";
        path := lit "pages/n.html"; filename := lit "n.html" |}]
  = None.
Proof. reflexivity. Qed.

(** ** Pages and files where the links look for them *)

Lemma lookup_archive_entries i j pages :
  (j ≤ i)%Z →
  lookup_entry (Number_toString i) (archive_entries j pages)
  = (λ page, Dir [(lit "index.html", File page)]) <$> pages !! Z.to_nat (i - j).
Proof.
  revert j. induction pages as [|p pages IH]; intros j Hj; [done |].
  cbn [archive_entries lookup_entry]. case_bool_decide as Hk.
  - apply Number_toString_inj in Hk as ->. by rewrite Z.sub_diag.
  - assert (j ≠ i) by by intros ->.
    rewrite IH by lia.
    replace (Z.to_nat (i - j)) with (S (Z.to_nat (i - (j + 1)))) by lia. done.
Qed.

Lemma lookup_site_tree entries (htmls : list jsstring) i :
  (1 ≤ i)%Z →
  lookup_path (pageOutputDir_of i ++ [lit "index.html"]) (site_tree entries htmls)
  = File <$> htmls !! Z.to_nat (i - 1).
Proof.
  intros Hi. unfold pageOutputDir_of. destruct (Z.eqb_spec i 1) as [-> | Hne].
  - by destruct htmls.
  - destruct htmls as [|first [|second rest]].
    + reflexivity.
    + replace (Z.to_nat (i - 1)) with (S (Z.to_nat (i - 2))) by lia. reflexivity.
    + cbn [app lookup_path]. unfold site_tree. rewrite root_lookup_archives.
      cbn [mbind option_bind]. rewrite lookup_archive_entries by lia.
      replace (Z.to_nat (i - 1)) with (S (Z.to_nat (i - 2))) by lia.
      cbn [lookup list_lookup].
      by destruct ((second :: rest) !! Z.to_nat (i - 2)).
Qed.

(** X9.  After a run with articles and a template, page [i] is read back
    at the place the loop chose for it, for every [i] from 1 to
    [totalPages]: [index.html] for the first, [archives/i/index.html] for
    the others; no page takes the place of another. *)
Theorem pages_read_back (e : Env) (site : option node)
    (entries : list (jsstring * node)) (template : jsstring) (i : Z) :
  pagesDir e = Some (Dir entries) →
  templatePath e = Some (File template) →
  let allArticles := allArticles_of e entries.*1 in
  (1 ≤ i ≤ totalPages_of allArticles)%Z →
  ∃ html,
    page_of e allArticles template i = Some html
    ∧ (run e (start site)).1 = Returned ()
    ∧ siteDir (run e (start site)).2
        ≫= lookup_path (pageOutputDir_of i ++ [lit "index.html"])
      = Some (File html).
Proof.
  intros Hp Ht allArticles Hi.
  assert (allArticles ≠ []) as Hne.
  { intros Hnil. rewrite Hnil in Hi. vm_compute in Hi. destruct Hi as [H1 H2].
    by destruct i. }
  destruct (run_normal e site entries template Hp Ht Hne) as (htmls & Hh & ->).
  fold allArticles in Hh.
  destruct (Forall2_lookup_l _ _ _ (Z.to_nat (i - 1)) i Hh) as (html & Hl & Hpage).
  { apply lookup_seqZ. lia. }
  exists html. split_and!; [done.. |].
  cbn [snd siteDir mbind option_bind]. rewrite lookup_site_tree by lia.
  by rewrite Hl.
Qed.

Lemma pages_read_back_witness :
  ∃ html,
    page_of sample_env (allArticles_of sample_env sample_entries.*1) template_3 2
    = Some html
    ∧ (run sample_env (start None)).1 = Returned ()
    ∧ siteDir (run sample_env (start None)).2
        ≫= lookup_path (pageOutputDir_of 2 ++ [lit "index.html"])
      = Some (File html).
Proof.
  apply (pages_read_back sample_env None sample_entries template_3 2).
  - reflexivity.
  - reflexivity.
  - by_compute.
Defined.

(** X10.  After such a run the file of every article is in the output at
    the path its entry links to, [pages/<file name>], as it is in the
    [pages] directory. *)
Theorem article_files_copied (e : Env) (site : option node)
    (entries : list (jsstring * node)) (template : jsstring) (a : Article) :
  pagesDir e = Some (Dir entries) →
  templatePath e = Some (File template) →
  a ∈ allArticles_of e entries.*1 →
  path a = lit "pages/" ++ filename a
  ∧ is_Some (lookup_entry (filename a) entries)
  ∧ siteDir (run e (start site)).2 ≫= lookup_path [lit "pages"; filename a]
    = lookup_entry (filename a) entries.
Proof.
  intros Hp Ht Ha.
  assert (allArticles_of e entries.*1 ≠ []) as Hne by (intros Hnil; rewrite Hnil in Ha; by apply elem_of_nil in Ha).
  destruct (run_normal e site entries template Hp Ht Hne) as (htmls & _ & ->).
  apply elem_of_allArticles in Ha as (file & Hin & Hf).
  destruct (parse_fields _ _ Hf) as (-> & Hpath & _).
  split_and!; [done | |].
  - clear -Hin. induction entries as [|[k v] entries IH]; [by apply elem_of_nil in Hin |].
    cbn [lookup_entry]. case_bool_decide; [by eexists |].
    apply IH. apply elem_of_cons in Hin as [-> | Hin]; done.
  - cbn [snd siteDir mbind option_bind lookup_path]. unfold site_tree.
    cbn [lookup_entry]. rewrite bool_decide_eq_true_2 by done.
    cbn [mbind option_bind]. by destruct (lookup_entry file entries).
Qed.

Lemma article_files_copied_witness :
  let a := sample_article "07" in
  path a = lit "pages/" ++ filename a
  ∧ is_Some (lookup_entry (filename a) sample_entries)
  ∧ siteDir (run sample_env (start None)).2 ≫= lookup_path [lit "pages"; filename a]
    = lookup_entry (filename a) sample_entries.
Proof.
  intros a.
  apply (article_files_copied sample_env None sample_entries template_3 a).
  - reflexivity.
  - reflexivity.
  - apply (list_elem_of_lookup_2 _ 4). by vm_compute.
Defined.

Lemma occurs_app_l (p s y : jsstring) : occurs p s → occurs p (s ++ y).
Proof. apply (occurs_middle p s [] y). Qed.

Lemma occurs_link (before href rest : jsstring) :
  occurs (lit "<a " ++ attr "href" href)
         (before ++ lit "<a " ++ attr "href" href ++ rest).
Proof. exists before, rest. by rewrite <- (app_assoc (lit "<a ")). Qed.

Lemma url_of_archive_dir i :
  url_of_dir [lit "archives"; Number_toString i]
  = lit "/archives/" ++ Number_toString i ++ lit "/".
Proof.
  unfold url_of_dir. cbn [map concat]. rewrite app_nil_r.
  change (lit "/archives/") with (lit "/" ++ lit "archives" ++ lit "/").
  by rewrite <- !app_assoc.
Qed.

(** X11.  The links of the pagination of page [i] address the
    directories in which the loop writes the neighbouring pages: the
    previous link that of page [i - 1], the next link that of page
    [i + 1]. *)
Theorem pagination_links_to_pages (i totalPages : Z) :
  (1 < i → occurs (lit "<a " ++ attr "href" (url_of_dir (pageOutputDir_of (i - 1))))
                  (generatePaginationHtml i totalPages))%Z
  ∧ (1 ≤ i < totalPages →
     occurs (lit "<a " ++ attr "href" (url_of_dir (pageOutputDir_of (i + 1))))
            (generatePaginationHtml i totalPages))%Z.
Proof.
  unfold generatePaginationHtml, pageOutputDir_of. split.
  - intros Hi. rewrite (proj2 (Z.ltb_lt 1 i)) by done.
    assert ((i - 1 =? 1) = (i =? 2))%Z as ->.
    { destruct (Z.eqb_spec i 2), (Z.eqb_spec (i - 1) 1); (done || lia). }
    assert (url_of_dir (if (i =? 2)%Z then []
                        else [lit "archives"; Number_toString (i - 1)])
            = if (i =? 2)%Z then lit "/"
              else lit "/archives/" ++ Number_toString (i - 1) ++ lit "/") as ->.
    { destruct (i =? 2)%Z; [reflexivity | apply url_of_archive_dir]. }
    cbv zeta. destruct (i <? totalPages)%Z.
    + do 3 apply occurs_app_l. apply occurs_link.
    + do 2 apply occurs_app_l. apply occurs_link.
  - intros Hi. rewrite (proj2 (Z.ltb_lt i totalPages)) by lia.
    rewrite (proj2 (Z.eqb_neq (i + 1) 1)) by lia. rewrite url_of_archive_dir.
    cbv zeta. apply occurs_app_l, occurs_link.
Qed.

(** ** No article twice *)

Lemma NoDup_parsed (allFiles : list jsstring) :
  NoDup allFiles → NoDup (omap getArticleFromFilename allFiles).
Proof.
  induction 1 as [|file allFiles Hin _ IH]; [constructor |].
  cbn [omap list_omap]. destruct (getArticleFromFilename file) as [a|] eqn:Hf; [| done].
  constructor; [| done].
  intros (file' & Hin' & Hf')%list_elem_of_omap.
  destruct (parse_fields _ _ Hf) as (<- & _), (parse_fields _ _ Hf') as (<- & _).
  done.
Qed.

Lemma NoDup_allArticles e (allFiles : list jsstring) :
  NoDup allFiles → NoDup (allArticles_of e allFiles).
Proof.
  intros Hnd. unfold allArticles_of.
  rewrite Array_sort_Permutation, omap_id_fmap. by apply NoDup_parsed.
Qed.

(** X12.  The names of a directory being distinct, no article is listed
    twice: the sorted list holds each article once, and an article is on
    one page only. *)
Theorem article_on_one_page (e : Env) (allFiles : list jsstring) :
  NoDup allFiles →
  let allArticles := allArticles_of e allFiles in
  NoDup allArticles
  ∧ ∀ (i j : Z) (a : Article),
      (1 ≤ i)%Z → (1 ≤ j)%Z →
      a ∈ pageArticles_of allArticles i → a ∈ pageArticles_of allArticles j →
      i = j.
Proof.
  intros Hnd allArticles.
  pose proof (NoDup_allArticles e allFiles Hnd) as Hall. fold allArticles in Hall.
  split; [done |]. intros i j a Hi Hj [p Hp]%list_elem_of_lookup [q Hq]%list_elem_of_lookup.
  rewrite lookup_pageArticles in Hp, Hq by done.
  case_decide; [| done]. case_decide; [| done].
  pose proof (NoDup_lookup _ _ _ _ Hall Hp Hq). lia.
Qed.

Lemma article_on_one_page_witness :
  NoDup (allArticles_of sample_env sample_names).
Proof.
  apply (article_on_one_page sample_env sample_names). by_compute.
Defined.

(** ** A template without a placeholder *)

Lemma String_replace_absent (s pat rep : jsstring) :
  ¬ occurs pat s → String_replace s pat rep = s.
Proof.
  intros Hn. unfold String_replace.
  pose proof (indexOf_split_spec pat [] s) as Hs.
  destruct (indexOf_split pat [] s) as [[x y]|]; [| done].
  destruct Hs as (b & _ & -> & _). destruct Hn. by exists b, y.
Qed.

(** X14.  A placeholder the template does not hold is passed over in
    silence: without the placeholder of the article list the page is the
    same whatever the articles of the page, and without any of the three
    the page is the template itself. *)
Theorem placeholder_absent (template articlesHtml paginationHtml : jsstring)
    (year : Z) :
  ¬ occurs (lit "<!-- ARCHIVES_PLACEHOLDER -->") template →
  (∀ articlesHtml',
     finalHtml_of template articlesHtml paginationHtml year
     = finalHtml_of template articlesHtml' paginationHtml year)
  ∧ (¬ occurs (lit "<!-- PAGINATION_PLACEHOLDER -->") template →
     ¬ occurs (lit "<!-- YEAR_PLACEHOLDER -->") template →
     finalHtml_of template articlesHtml paginationHtml year = template).
Proof.
  intros H1. unfold finalHtml_of. cbv zeta. split.
  - intros articlesHtml'.
    by rewrite (String_replace_absent template _ articlesHtml H1),
               (String_replace_absent template _ articlesHtml' H1).
  - intros H2 H3.
    by rewrite (String_replace_absent template _ _ H1),
               (String_replace_absent template _ _ H2),
               (String_replace_absent template _ _ H3).
Qed.

Lemma placeholder_absent_witness :
  (∀ articlesHtml',
     finalHtml_of (lit "<html></html>") (lit "<ul></ul>") (lit "<div></div>") 2024
     = finalHtml_of (lit "<html></html>") articlesHtml' (lit "<div></div>") 2024)
  ∧ (¬ occurs (lit "<!-- PAGINATION_PLACEHOLDER -->") (lit "<html></html>") →
     ¬ occurs (lit "<!-- YEAR_PLACEHOLDER -->") (lit "<html></html>") →
     finalHtml_of (lit "<html></html>") (lit "<ul></ul>") (lit "<div></div>") 2024
     = lit "<html></html>").
Proof.
  apply (placeholder_absent (lit "<html></html>") (lit "<ul></ul>")
           (lit "<div></div>") 2024).
  intros H%occursb_occurs. by vm_compute in H.
Defined.

(** ** The order of the directory listing *)

(** X15.  Where the comparison of the sort gives 0 only for equal names,
    the sorted list of articles does not depend on the order in which the
    directory lists its names. *)
Theorem listing_order_irrelevant (e : Env) (allFiles allFiles' : list jsstring) :
  consistent (localeCompare e) →
  (∀ f g, f ∈ allFiles → g ∈ allFiles →
          (localeCompare e f g ≤ 0)%Z → (localeCompare e g f ≤ 0)%Z → f = g) →
  allFiles ≡ₚ allFiles' →
  allArticles_of e allFiles = allArticles_of e allFiles'.
Proof.
  intros He Hanti Hperm.
  pose proof (consistent_on (λ x y, localeCompare e y x) filename
                (consistent_flip _ He)) as Hc.
  apply (StronglySorted_unique_strong
           (λ a b, (localeCompare e (filename b) (filename a) ≤ 0)%Z)).
  - intros a b (f & Hf & Ha)%elem_of_allArticles (g & Hg & Hb)%elem_of_allArticles
      Hab Hba.
    destruct (parse_fields _ _ Ha) as (Hfa & _), (parse_fields _ _ Hb) as (Hfb & _).
    rewrite Hfa, Hfb in Hab, Hba.
    rewrite <- Hperm in Hg.
    assert (f = g) as -> by by apply Hanti. congruence.
  - apply (Array_sort_StronglySorted _ Hc).
  - apply (Array_sort_StronglySorted _ Hc).
  - unfold allArticles_of. rewrite !Array_sort_Permutation, !omap_id_fmap.
    by rewrite Hperm.
Qed.

Lemma listing_order_irrelevant_witness :
  let e := sample_env in
  allArticles_of e [lit "2024-01-01-a.html"; lit "notes.txt"; lit "2024-01-02-b.html"]
  = allArticles_of e [lit "2024-01-02-b.html"; lit "2024-01-01-a.html"; lit "notes.txt"].
Proof.
  intros e. apply (listing_order_irrelevant e).
  - apply caseless_compare_consistent.
  - intros f g Hf Hg.
    repeat (apply elem_of_cons in Hf as [-> | Hf]);
      repeat (apply elem_of_cons in Hg as [-> | Hg]);
      try (by apply elem_of_nil in Hf); try (by apply elem_of_nil in Hg);
      try reflexivity; intros H1 H2; exfalso;
      first [ by vm_compute in H1 | by vm_compute in H2 ].
  - symmetry. apply (Permutation_cons_append [_; _]).
Defined.

(** ** A page of the sample run, by the placeholders *)

Lemma page_literal_witness :
  let allArticles := allArticles_of sample_env sample_names in
  ∃ articlesHtml s1 s2,
    generateArticlesHtml (pageArticles_of allArticles 2) = Some articlesHtml
    ∧ ReplacedFirst (lit "<!-- ARCHIVES_PLACEHOLDER -->") articlesHtml template_3 s1
    ∧ ReplacedFirst (lit "<!-- PAGINATION_PLACEHOLDER -->")
        (generatePaginationHtml 2 (totalPages_of allArticles)) s1 s2
    ∧ ReplacedFirst (lit "<!-- YEAR_PLACEHOLDER -->")
        (Number_toString (currentYear sample_env)) s2
        (finalHtml_of template_3 articlesHtml
           (generatePaginationHtml 2 (totalPages_of allArticles))
           (currentYear sample_env)).
Proof.
  apply (page_literal sample_env sample_names template_3 2). by_compute.
Defined.
